(** * MC-01 MIDI Clock: a shallow embedding of [midi_clock.ino]

    The sketch targets an ATmega328 (the pin comments of the source name the
    28-pin package), so the C types have the avr-gcc widths:
    [byte] is 8 bits unsigned, [int] 16 bits signed, [long] 32 bits signed and
    [unsigned long] 32 bits unsigned.  Every machine integer is a [Z] and the
    wrap-around of each assignment is written out.

    The globals of the sketch, the output pins, the programmed period of
    Timer1, the encoder count and the bytes sent on the MIDI port form one
    record [State].  The readings of [millis()], [micros()] and
    [digitalRead()] are arguments of the functions that take them.  A
    division by zero is a fault: functions that divide return [option].

    The timer handler [clockTick] is attached to the interrupt of Timer1: it
    runs between two calls of the polling functions or inside one.
    [doStartStopInput] is the transport poll run without interruption, and
    [doStartStopInputWith] the same code with the handler firing between its
    statements.  The handler commutes with the other functions of [loop],
    which write none of the globals it uses.

    The AVR does not trap on a division by zero.  In the sketch at work,
    [Runs], a tap poll that divides by zero leaves unspecified values in the
    globals the tap estimator writes, and the sketch goes on.

    The display code writes no global: [doDisplay] gives, in order, what it
    does to its pins, and a read outside one of its two arrays is a fault
    like the division by zero.  [loop] brings its own global [position] and
    takes what the encoder has moved as an argument. *)

From Stdlib Require Import ZArith List Bool Lia.
Import ListNotations.
Open Scope Z_scope.

(** ** Machine integers *)

Module Avr.

Definition u8 (x : Z) : Z := x mod 2 ^ 8.
Definition u32 (x : Z) : Z := x mod 2 ^ 32.
Definition s16 (x : Z) : Z := (x + 2 ^ 15) mod 2 ^ 16 - 2 ^ 15.
Definition s32 (x : Z) : Z := (x + 2 ^ 31) mod 2 ^ 32 - 2 ^ 31.

#[global] Arguments u8 : simpl never.
#[global] Arguments u32 : simpl never.
#[global] Arguments s16 : simpl never.
#[global] Arguments s32 : simpl never.

End Avr.
Import Avr.

(** ** Constants of the sketch *)

Definition TEMPO_MIN : Z := 40.
Definition TEMPO_MAX : Z := 300.
Definition PPQ : Z := 24.
Definition DEBOUNCE_TIME : Z := 30.
Definition TAP_EXPIRE_FACTOR : Z := 2.
Definition TAP_EXPIRE_DEFAULT : Z := 1715000.

Definition LOW : Z := 0.
Definition HIGH : Z := 1.

(** ** Messages written to the MIDI port *)

Inductive MidiMsg : Type :=
| Start
| Stop
| Clock
| ControlChange (number value channel : Z).

Definition MidiMsg_eqb (a b : MidiMsg) : bool :=
  match a, b with
  | Start, Start | Stop, Stop | Clock, Clock => true
  | ControlChange n v c, ControlChange n' v' c' =>
      (n =? n') && (v =? v') && (c =? c')
  | _, _ => false
  end.

Definition isClock (m : MidiMsg) : bool := MidiMsg_eqb m Clock.
Definition isStart (m : MidiMsg) : bool := MidiMsg_eqb m Start.
Definition isStop (m : MidiMsg) : bool := MidiMsg_eqb m Stop.
Definition isTransport (m : MidiMsg) : bool := isStart m || isStop m.
Definition isControlChange (m : MidiMsg) : bool :=
  match m with ControlChange _ _ _ => true | _ => false end.

Definition count (p : MidiMsg -> bool) (l : list MidiMsg) : nat :=
  length (filter p l).

(** ** The state: globals and collaborators *)

Record State : Type := mkState {
  started : bool;
  lastTapDebounceTime : Z;    (* unsigned long, millis *)
  lastStartDebounceTime : Z;  (* unsigned long, millis *)
  lastTapTime : Z;            (* unsigned long, micros *)
  tapExpireTime : Z;          (* unsigned long, micros *)
  lastTapState : Z;           (* byte *)
  lastStartState : Z;         (* byte *)
  tempo : Z;                  (* int *)
  currentTick : Z;            (* byte *)
  timerPeriod : Z;            (* period programmed into Timer1 *)
  encoderCount : Z;           (* count held by tempoEncoder *)
  tempoLed : Z;               (* level of TEMPO_LED_PIN *)
  runningLed : Z;             (* level of RUNNING_LED_PIN *)
  midiOut : list MidiMsg      (* messages sent so far, oldest first *)
}.

(** Assignment to one global: the record with that field replaced. *)
Definition set_started v (s : State) : State :=
  let '(mkState st td sd lt te ts ss bpm ct per enc tl rl out) := s in
  mkState v td sd lt te ts ss bpm ct per enc tl rl out.
Definition set_lastTapDebounceTime v (s : State) : State :=
  let '(mkState st td sd lt te ts ss bpm ct per enc tl rl out) := s in
  mkState st v sd lt te ts ss bpm ct per enc tl rl out.
Definition set_lastStartDebounceTime v (s : State) : State :=
  let '(mkState st td sd lt te ts ss bpm ct per enc tl rl out) := s in
  mkState st td v lt te ts ss bpm ct per enc tl rl out.
Definition set_lastTapTime v (s : State) : State :=
  let '(mkState st td sd lt te ts ss bpm ct per enc tl rl out) := s in
  mkState st td sd v te ts ss bpm ct per enc tl rl out.
Definition set_tapExpireTime v (s : State) : State :=
  let '(mkState st td sd lt te ts ss bpm ct per enc tl rl out) := s in
  mkState st td sd lt v ts ss bpm ct per enc tl rl out.
Definition set_lastTapState v (s : State) : State :=
  let '(mkState st td sd lt te ts ss bpm ct per enc tl rl out) := s in
  mkState st td sd lt te v ss bpm ct per enc tl rl out.
Definition set_lastStartState v (s : State) : State :=
  let '(mkState st td sd lt te ts ss bpm ct per enc tl rl out) := s in
  mkState st td sd lt te ts v bpm ct per enc tl rl out.
Definition set_tempo v (s : State) : State :=
  let '(mkState st td sd lt te ts ss bpm ct per enc tl rl out) := s in
  mkState st td sd lt te ts ss v ct per enc tl rl out.
Definition set_currentTick v (s : State) : State :=
  let '(mkState st td sd lt te ts ss bpm ct per enc tl rl out) := s in
  mkState st td sd lt te ts ss bpm v per enc tl rl out.
Definition set_timerPeriod v (s : State) : State :=
  let '(mkState st td sd lt te ts ss bpm ct per enc tl rl out) := s in
  mkState st td sd lt te ts ss bpm ct v enc tl rl out.
Definition set_encoderCount v (s : State) : State :=
  let '(mkState st td sd lt te ts ss bpm ct per enc tl rl out) := s in
  mkState st td sd lt te ts ss bpm ct per v tl rl out.
Definition set_tempoLed v (s : State) : State :=
  let '(mkState st td sd lt te ts ss bpm ct per enc tl rl out) := s in
  mkState st td sd lt te ts ss bpm ct per enc v rl out.
Definition set_runningLed v (s : State) : State :=
  let '(mkState st td sd lt te ts ss bpm ct per enc tl rl out) := s in
  mkState st td sd lt te ts ss bpm ct per enc tl v out.
Definition set_midiOut v (s : State) : State :=
  let '(mkState st td sd lt te ts ss bpm ct per enc tl rl out) := s in
  mkState st td sd lt te ts ss bpm ct per enc tl rl v.

(** The collaborators: [MIDI.sendRealTime], [MIDI.sendControlChange],
    [Timer1.setPeriod] and [tempoEncoder.write]. *)

Definition send (m : MidiMsg) (s : State) : State :=
  set_midiOut (midiOut s ++ [m]) s.
Definition sendRealTime (m : MidiMsg) (s : State) : State := send m s.
Definition sendControlChange (number value channel : Z) (s : State) : State :=
  send (ControlChange number value channel) s.
Definition Timer1_setPeriod (microseconds : Z) (s : State) : State :=
  set_timerPeriod microseconds s.
Definition tempoEncoder_write (p : Z) (s : State) : State :=
  set_encoderCount p s.

(** The globals as their initialisers leave them, with what [setup] reads
    from the two button pins.  The output pins are low and Timer1 is
    programmed for 120 BPM. *)
Definition initial (tapPin startPin : Z) : State :=
  mkState false 0 0 0 TAP_EXPIRE_DEFAULT (u8 tapPin) (u8 startPin) 120 0
    20833 0 LOW LOW [].

(** ** A small error monad for the functions that divide *)

Definition bind {A B : Type} (m : option A) (k : A -> option B) : option B :=
  match m with
  | Some a => k a
  | None => None
  end.

Notation "x <- m ;; k" := (bind m (fun x => k))
  (at level 61, m at next level, right associativity).

(** ** Period of one tick

<<
long calcTempoMicros() {
  long tempoMicros = (60 * 1000000) / (tempo * PPQ);
  return tempoMicros;
}
>>
    [60 * 1000000] is a [long]; [tempo * PPQ] is an [int] product, which
    wraps at 16 bits before it is widened for the division; C division
    truncates. *)
Definition calcTempoMicros (s : State) : option Z :=
  let divisor := s16 (tempo s * PPQ) in
  if divisor =? 0 then None
  else Some (s32 (Z.quot (60 * 1000000) divisor)).

(** ** Step adjustment

<<
void changeTempo(int offset) {
  tempo += offset;
  if (tempo < TEMPO_MIN) { tempo = TEMPO_MIN; }
  else if (tempo > TEMPO_MAX) { tempo = TEMPO_MAX; }
  Timer1.setPeriod(calcTempoMicros());
  tempoEncoder.write(0);
}
>> *)
Definition changeTempo (offset : Z) (s : State) : option State :=
  let s := set_tempo (s16 (tempo s + offset)) s in
  let s :=
    if tempo s <? TEMPO_MIN then set_tempo TEMPO_MIN s
    else if tempo s >? TEMPO_MAX then set_tempo TEMPO_MAX s
    else s in
  p <- calcTempoMicros s ;;
  let s := Timer1_setPeriod p s in
  Some (tempoEncoder_write 0 s).

(** ** Tap tempo

<<
void tapTempo() {
  if (lastTapTime == 0) {
    lastTapTime = micros();
    tapExpireTime = TAP_EXPIRE_DEFAULT;
  } else {
    unsigned long newTapTime = micros();
    unsigned long timeDifference = newTapTime - lastTapTime;
    tapExpireTime = timeDifference * TAP_EXPIRE_FACTOR;
    int bpm = 60000000 / timeDifference;
    tempo = bpm;
    Timer1.setPeriod(calcTempoMicros());
    lastTapTime = newTapTime;
  }
}
>>
    [us] is the reading of [micros()].  The quotient is an [unsigned long]
    and is cut to 16 bits by the assignment to [bpm]. *)
Definition tapTempo (us : Z) (s : State) : option State :=
  if lastTapTime s =? 0 then
    let s := set_lastTapTime us s in
    Some (set_tapExpireTime TAP_EXPIRE_DEFAULT s)
  else
    let newTapTime := us in
    let timeDifference := u32 (newTapTime - lastTapTime s) in
    let s := set_tapExpireTime (u32 (timeDifference * TAP_EXPIRE_FACTOR)) s in
    if timeDifference =? 0 then None
    else
      let bpm := s16 (60000000 / timeDifference) in
      let s := set_tempo bpm s in
      p <- calcTempoMicros s ;;
      let s := Timer1_setPeriod p s in
      Some (set_lastTapTime newTapTime s).

(** ** One pass of the polling loop over a button

    What one call of a polling function reads from the outside: the level of
    its pin, [millis()] where the accepted edge is stamped, [millis()] at the
    closing test of the function, and [micros()]. *)
Record Poll : Type := mkPoll {
  pinLevel : Z;
  millisEdge : Z;
  millisEnd : Z;
  microsNow : Z
}.

(** The body of [for (int i=1; i<=16; i++)]. *)
Definition channels : list Z := map Z.of_nat (seq 1 16).

Definition allNotesOff (s : State) : State :=
  fold_left (fun s i => sendControlChange 123 0 i s) channels s.

(**
<<
void doStartStopInput() {
  int newStartState = digitalRead(START_STOP_PIN);
  if (newStartState != lastStartState) {
    if (lastStartDebounceTime == 0) {
      lastStartDebounceTime = millis();
      lastStartState = newStartState;
      if (lastStartState == LOW) {
        started = !started;
        if (started) {
          MIDI.sendRealTime(midi::Start);
          digitalWrite(RUNNING_LED_PIN, HIGH);
          currentTick = 0;
        } else {
          MIDI.sendRealTime(midi::Stop);
          for (int i=1; i<=16; i++) { MIDI.sendControlChange(123, 0, i); }
          digitalWrite(RUNNING_LED_PIN, LOW);
        }
      }
    }
  }
  if (millis() - DEBOUNCE_TIME >= lastStartDebounceTime) {
    lastStartDebounceTime = 0;
  }
}
>> *)
Definition doStartStopInput (p : Poll) (s : State) : State :=
  let newStartState := pinLevel p in
  let s :=
    if negb (newStartState =? lastStartState s) then
      if lastStartDebounceTime s =? 0 then
        let s := set_lastStartDebounceTime (millisEdge p) s in
        let s := set_lastStartState (u8 newStartState) s in
        if lastStartState s =? LOW then
          let s := set_started (negb (started s)) s in
          if started s then
            let s := sendRealTime Start s in
            let s := set_runningLed HIGH s in
            set_currentTick 0 s
          else
            let s := sendRealTime Stop s in
            let s := allNotesOff s in
            set_runningLed LOW s
        else s
      else s
    else s in
  if u32 (millisEnd p - DEBOUNCE_TIME) >=? lastStartDebounceTime s
  then set_lastStartDebounceTime 0 s
  else s.

(**
<<
void doTapInput() {
  int newTapState = digitalRead(TAP_TEMPO_PIN);
  if (newTapState != lastTapState) {
    if (lastTapDebounceTime == 0) {
      lastTapDebounceTime = millis();
      lastTapState = newTapState;
      if (lastTapState == LOW) { tapTempo(); }
    }
  } else {
    if (lastTapTime > 0 && micros() - tapExpireTime >= lastTapTime) {
      lastTapTime = 0;
    }
  }
  if (millis() - DEBOUNCE_TIME >= lastTapDebounceTime) {
    lastTapDebounceTime = 0;
  }
}
>> *)
Definition doTapInput (p : Poll) (s : State) : option State :=
  let newTapState := pinLevel p in
  s <- (if negb (newTapState =? lastTapState s) then
          if lastTapDebounceTime s =? 0 then
            let s := set_lastTapDebounceTime (millisEdge p) s in
            let s := set_lastTapState (u8 newTapState) s in
            if lastTapState s =? LOW then tapTempo (microsNow p) s
            else Some s
          else Some s
        else
          if (lastTapTime s >? 0)
             && (u32 (microsNow p - tapExpireTime s) >=? lastTapTime s)
          then Some (set_lastTapTime 0 s)
          else Some s) ;;
  Some (if u32 (millisEnd p - DEBOUNCE_TIME) >=? lastTapDebounceTime s
        then set_lastTapDebounceTime 0 s
        else s).

(** The guards under which a poll reaches the press branch: the call of
    [tapTempo], respectively the toggle of [started]. *)
Definition tapPress (p : Poll) (s : State) : bool :=
  negb (pinLevel p =? lastTapState s)
  && (lastTapDebounceTime s =? 0)
  && (u8 (pinLevel p) =? LOW).

Definition startPress (p : Poll) (s : State) : bool :=
  negb (pinLevel p =? lastStartState s)
  && (lastStartDebounceTime s =? 0)
  && (u8 (pinLevel p) =? LOW).

(** Successive polls of one button; the result lists, poll by poll, whether
    the press branch was taken. *)
Fixpoint pollStart (ps : list Poll) (s : State) : list bool * State :=
  match ps with
  | [] => ([], s)
  | p :: ps' =>
      let '(bs, s') := pollStart ps' (doStartStopInput p s) in
      (startPress p s :: bs, s')
  end.

Fixpoint pollTap (ps : list Poll) (s : State) : option (list bool * State) :=
  match ps with
  | [] => Some ([], s)
  | p :: ps' =>
      s1 <- doTapInput p s ;;
      r <- pollTap ps' s1 ;;
      Some (tapPress p s :: fst r, snd r)
  end.

(** ** The timer handler

<<
void clockTick() {
  if (started) { MIDI.sendRealTime(midi::Clock); }
  if (currentTick == 0) { digitalWrite(TEMPO_LED_PIN, HIGH); }
  if (currentTick == 4) { digitalWrite(TEMPO_LED_PIN, LOW); }
  currentTick++;
  if (currentTick == 24) { currentTick = 0; }
}
>> *)
Definition clockTick (s : State) : State :=
  let s := if started s then sendRealTime Clock s else s in
  let s := if currentTick s =? 0 then set_tempoLed HIGH s else s in
  let s := if currentTick s =? 4 then set_tempoLed LOW s else s in
  let s := set_currentTick (u8 (currentTick s + 1)) s in
  if currentTick s =? 24 then set_currentTick 0 s else s.

(** [n] invocations of the handler in a row. *)
Fixpoint ticks (n : nat) (s : State) : State :=
  match n with
  | O => s
  | S n' => ticks n' (clockTick s)
  end.

(** ** The handler as an interrupt

    [setup] attaches [clockTick] to Timer1 (line 91), so it fires between
    any two statements of the polling code.  The places of the press branch
    of [doStartStopInput] where it can fire are named after the statement
    they follow. *)
Inductive Point : Type :=
| AfterStamp                  (* line 136, lastStartDebounceTime = millis() *)
| AfterLevel                  (* line 137, lastStartState = newStartState *)
| AfterToggle                 (* line 140, started = !started *)
| AfterStart                  (* line 143, sendRealTime(Start) *)
| AfterLedHigh                (* line 144 *)
| AfterReset                  (* line 145, currentTick = 0 *)
| AfterStop                   (* line 147, sendRealTime(Stop) *)
| AfterNoteOff (channel : Z)  (* line 150, in each turn of the loop *)
| AfterLedLow.                (* line 152 *)

(** How many times the handler fires at each place during one call. *)
Definition Schedule : Type := Point -> nat.

(** The handler kept out of the call. *)
Definition quiet : Schedule := fun _ => O.

Definition Point_eqb (a b : Point) : bool :=
  match a, b with
  | AfterStamp, AfterStamp | AfterLevel, AfterLevel
  | AfterToggle, AfterToggle | AfterStart, AfterStart
  | AfterLedHigh, AfterLedHigh | AfterReset, AfterReset
  | AfterStop, AfterStop | AfterLedLow, AfterLedLow => true
  | AfterNoteOff i, AfterNoteOff j => i =? j
  | _, _ => false
  end.

(** The handler firing once, at [pt]. *)
Definition once (pt : Point) : Schedule :=
  fun q => if Point_eqb pt q then 1%nat else O.

(** [doStartStopInput], statement by statement, with the handler let in.
    Before line 136 and from line 157 on the function touches nothing the
    handler reads or writes: an invocation there is one before or after the
    call. *)
Definition doStartStopInputWith (irq : Schedule) (p : Poll) (s : State)
  : State :=
  let newStartState := pinLevel p in
  let s :=
    if negb (newStartState =? lastStartState s) then
      if lastStartDebounceTime s =? 0 then
        let s := set_lastStartDebounceTime (millisEdge p) s in
        let s := ticks (irq AfterStamp) s in
        let s := set_lastStartState (u8 newStartState) s in
        let s := ticks (irq AfterLevel) s in
        if lastStartState s =? LOW then
          let s := set_started (negb (started s)) s in
          let s := ticks (irq AfterToggle) s in
          if started s then
            let s := sendRealTime Start s in
            let s := ticks (irq AfterStart) s in
            let s := set_runningLed HIGH s in
            let s := ticks (irq AfterLedHigh) s in
            let s := set_currentTick 0 s in
            ticks (irq AfterReset) s
          else
            let s := sendRealTime Stop s in
            let s := ticks (irq AfterStop) s in
            let s := fold_left
                       (fun s i =>
                          ticks (irq (AfterNoteOff i))
                            (sendControlChange 123 0 i s))
                       channels s in
            let s := set_runningLed LOW s in
            ticks (irq AfterLedLow) s
        else s
      else s
    else s in
  if u32 (millisEnd p - DEBOUNCE_TIME) >=? lastStartDebounceTime s
  then set_lastStartDebounceTime 0 s
  else s.

(** ** The running sketch

    What can happen to the state once [setup] is done: the timer fires, a
    button is polled, or [loop] passes a step of the encoder on to
    [changeTempo]. *)
Inductive Step : State -> State -> Prop :=
| step_tick s :
    Step s (clockTick s)
| step_start p s :
    Step s (doStartStopInput p s)
| step_tap p s s' :
    doTapInput p s = Some s' -> Step s s'
| step_encoder offset s s' :
    offset = 1 \/ offset = -1 -> changeTempo offset s = Some s' -> Step s s'.

Inductive Reachable : State -> Prop :=
| reach_setup tapPin startPin :
    Reachable (initial tapPin startPin)
| reach_step s s' :
    Reachable s -> Step s s' -> Reachable s'.

(** ** Outcomes of the functions that index an array

    Beside the division by zero, the display reads two arrays at computed
    indices.  [Fault] stands for either; [NoFuel] says that the bound given
    to a loop of the model was too small, which the properties exclude. *)
Inductive Run (A : Type) : Type :=
| Done (a : A)
| Fault
| NoFuel.
Arguments Done {A} a.
Arguments Fault {A}.
Arguments NoFuel {A}.

Definition bindRun {A B : Type} (m : Run A) (k : A -> Run B) : Run B :=
  match m with
  | Done a => k a
  | Fault => Fault
  | NoFuel => NoFuel
  end.

Notation "x <~ m ;; k" := (bindRun m (fun x => k))
  (at level 61, m at next level, right associativity).

Definition ofOption {A : Type} (m : option A) : Run A :=
  match m with
  | Some a => Done a
  | None => Fault
  end.

(** [l[i]] for a C array of the length of [l]: outside it there is no
    value. *)
Definition index {A : Type} (l : list A) (i : Z) : option A :=
  if i <? 0 then None else nth_error l (Z.to_nat i).

(** ** The display

<<
#define DATA_PIN 5
#define ENABLE_PIN 6
#define CLOCK_PIN 7
#define DELAY_TIME 1
int output_pins[3] = {9, 10, 8};  // least significant digit first
char digits[10] = { 0xEB, 0x28, 0xB3, 0xBA, 0x78, 0xDA, 0xDB, 0xA8,
                    0xFB, 0xFA };
>>
    The table is kept as the bytes that reach [shiftOut], whose parameter is
    a [uint8_t]. *)
Definition DATA_PIN : Z := 5.
Definition ENABLE_PIN : Z := 6.
Definition CLOCK_PIN : Z := 7.
Definition DELAY_TIME : Z := 1.
Definition MSBFIRST : Z := 1.

Definition output_pins : list Z := [9; 10; 8].

Definition digits : list Z :=
  [0xEB; 0x28; 0xB3; 0xBA; 0x78; 0xDA; 0xDB; 0xA8; 0xFB; 0xFA].

(** What the display code does to the outside, in order. *)
Inductive PinEvent : Type :=
| DigitalWrite (pin level : Z)
| ShiftOut (dataPin clockPin bitOrder value : Z)
| Delay (ms : Z).

(**
<<
void doDisplay() {
  int digit = tempo;
  int i = 0;
  while (digit) {
    digitalWrite(ENABLE_PIN, HIGH);
    shiftOut(DATA_PIN, CLOCK_PIN, MSBFIRST, digits[digit % 10]);
    digitalWrite(ENABLE_PIN, LOW);
    digitalWrite(output_pins[i], LOW);
    delay(DELAY_TIME);
    digitalWrite(output_pins[i], HIGH);
    digit /= 10;
    i++;
  }
}
>>
    [%] and [/] are the truncating remainder and quotient of C. *)
Fixpoint displayLoop (fuel : nat) (digit i : Z) : Run (list PinEvent) :=
  if digit =? 0 then Done []
  else
    match fuel with
    | O => NoFuel
    | S fuel' =>
        seg <~ ofOption (index digits (Z.rem digit 10)) ;;
        pin <~ ofOption (index output_pins i) ;;
        rest <~ displayLoop fuel' (Z.quot digit 10) (i + 1) ;;
        Done ([DigitalWrite ENABLE_PIN HIGH;
               ShiftOut DATA_PIN CLOCK_PIN MSBFIRST (u8 seg);
               DigitalWrite ENABLE_PIN LOW;
               DigitalWrite pin LOW;
               Delay DELAY_TIME;
               DigitalWrite pin HIGH] ++ rest)
    end.

Definition doDisplay (s : State) : Run (list PinEvent) :=
  displayLoop 8 (tempo s) 0.

(** ** The main loop

    [position] is the one global that only [loop] uses; it rides beside the
    others. *)
Record Sketch : Type := mkSketch {
  globals : State;
  position : Z                (* int *)
}.

(** What one pass of [loop] takes from the outside: the counts the encoder
    has moved since it was last read or written, and the readings of the
    two polls. *)
Record Pass : Type := mkPass {
  encoderMoved : Z;
  tapPoll : Poll;
  startPoll : Poll
}.

(** [tempoEncoder.read()]: the count of the encoder object, a 32-bit
    integer, brought up to date with the movement. *)
Definition tempoEncoder_read (moved : Z) (s : State) : State :=
  set_encoderCount (s32 (encoderCount s + moved)) s.

(** The encoder block of [loop]:
<<
  long newPos = tempoEncoder.read();
  if (newPos != position) {
    position = newPos;
    if (position > 3) { changeTempo(1); }
    else if (position < -3) { changeTempo(-1); }
  }
>> *)
Definition loopEncoder (moved : Z) (k : Sketch) : option Sketch :=
  let s := tempoEncoder_read moved (globals k) in
  let newPos := encoderCount s in
  if negb (newPos =? position k) then
    let position := s16 newPos in
    if position >? 3 then
      s <- changeTempo 1 s ;; Some (mkSketch s position)
    else if position <? -3 then
      s <- changeTempo (-1) s ;; Some (mkSketch s position)
    else Some (mkSketch s position)
  else Some (mkSketch s (position k)).

(**
<<
void loop() {
  ... the encoder block ...
  doTapInput();
  doStartStopInput();
  doDisplay();
}
>>
    The pass gives the sketch it leaves and what the display did. *)
Definition loop (io : Pass) (k : Sketch) : Run (Sketch * list PinEvent) :=
  k <~ ofOption (loopEncoder (encoderMoved io) k) ;;
  s <~ ofOption (doTapInput (tapPoll io) (globals k)) ;;
  let s := doStartStopInput (startPoll io) s in
  shown <~ doDisplay s ;;
  Done (mkSketch s (position k), shown).



(** ** Vocabulary of the properties *)

(** The clamp of the spec: the nearest value of [[TEMPO_MIN, TEMPO_MAX]]. *)
Definition clamp (x : Z) : Z := Z.max TEMPO_MIN (Z.min TEMPO_MAX x).

(** The closing test of both polling functions on the debounce timer. *)
Definition timerAfter (p : Poll) (t : Z) : Z :=
  if u32 (millisEnd p - DEBOUNCE_TIME) >=? t then 0 else t.

(** The outcome claimed for a pair of taps 500 ms apart, the first at
    [micros() = T] with the estimator idle in [s0]: the second tap sets the
    tempo to 120, the expiry window to 1,000,000 and the recorded tap time
    to its own reading. *)
Definition tap_pair_sets_120 (T : Z) (s0 : State) : Prop :=
  exists s1 s2,
    tapTempo T s0 = Some s1
    /\ tapTempo (u32 (T + 500000)) s1 = Some s2
    /\ tempo s2 = 120
    /\ tapExpireTime s2 = 1000000
    /\ lastTapTime s2 = u32 (T + 500000).

(** An idle poll: the pin reads the level recorded in [lastTapState]. *)
Definition idlePoll (p : Poll) (s : State) : Prop :=
  pinLevel p = lastTapState s.

(** The expiry test of the idle branch. *)
Definition tapExpired (p : Poll) (s : State) : bool :=
  (lastTapTime s >? 0)
  && (u32 (microsNow p - tapExpireTime s) >=? lastTapTime s).

(** The level of the tempo indicator is a function of the counter once the
    handler has run from counter 0: high while the stored counter is 1 to 4,
    that is after the invocations that found it at 0 to 3. *)
Definition ledFollowsTick (s : State) : Prop :=
  0 <= currentTick s < 24
  /\ tempoLed s = (if (1 <=? currentTick s) && (currentTick s <=? 4)
                   then HIGH else LOW).

(** What the stop branch sends. *)
Definition stopMessages : list MidiMsg :=
  Stop :: map (ControlChange 123 0) channels.

(** A poll whose closing [millis()] reading is less than [DEBOUNCE_TIME]
    after the stamp [T] of a running timer, with no wrap of the readings. *)
Definition inWindow (T : Z) (p : Poll) : Prop :=
  T <= millisEnd p < T + DEBOUNCE_TIME /\ millisEnd p < 2 ^ 32.





(** Timer1 is programmed with the period of the tempo in force. *)
Definition periodOk (s : State) : Prop :=
  calcTempoMicros s = Some (timerPeriod s).

(** The globals split in three: those of the transport and the tick
    handler, those of the tap estimator with the tempo and the period, and
    the count of the encoder. *)
Definition transportView (s : State) :=
  (started s, lastStartDebounceTime s, lastStartState s, currentTick s,
   tempoLed s, runningLed s, midiOut s).

Definition tapView (s : State) :=
  (lastTapDebounceTime s, lastTapState s, lastTapTime s, tapExpireTime s,
   tempo s, timerPeriod s).


(** Reading a run of the display back: the bytes shifted out, the digit
    pins pulled low, the digit a byte stands for in the table, and the
    number that digits spell, least significant first. *)
Definition shifted (evs : list PinEvent) : list Z :=
  flat_map (fun e => match e with
                     | ShiftOut _ _ _ value => [value]
                     | _ => []
                     end) evs.

Definition isDigitPin (pin : Z) : bool := existsb (Z.eqb pin) output_pins.

Definition selected (evs : list PinEvent) : list Z :=
  flat_map (fun e => match e with
                     | DigitalWrite pin level =>
                         if isDigitPin pin && (level =? LOW) then [pin]
                         else []
                     | _ => []
                     end) evs.

Fixpoint findIndex (x : Z) (l : list Z) (i : Z) : option Z :=
  match l with
  | [] => None
  | y :: l' => if x =? y then Some i else findIndex x l' (i + 1)
  end.

Definition decodeDigit (value : Z) : option Z := findIndex value digits 0.

Fixpoint readBack (values : list Z) : option Z :=
  match values with
  | [] => Some 0
  | v :: values' =>
      d <- decodeDigit v ;;
      n <- readBack values' ;;
      Some (d + 10 * n)
  end.

(** The discipline of a multiplexed display, checked along a run: a digit
    pin is pulled low only while no other is low, the shift register is
    loaded only while all are high, and all are high at the end.  [lit] is
    the digit pin that is low, if any. *)
Fixpoint multiplexed (lit : option Z) (evs : list PinEvent) : bool :=
  match evs with
  | [] => match lit with None => true | Some _ => false end
  | DigitalWrite pin level :: evs' =>
      if isDigitPin pin then
        if level =? LOW then
          match lit with
          | None => multiplexed (Some pin) evs'
          | Some _ => false
          end
        else
          match lit with
          | Some q => multiplexed (if q =? pin then None else lit) evs'
          | None => multiplexed None evs'
          end
      else multiplexed lit evs'
  | ShiftOut _ _ _ _ :: evs' =>
      match lit with
      | None => multiplexed None evs'
      | Some _ => false
      end
  | Delay _ :: evs' => multiplexed lit evs'
  end.

(** The segments of a seven-segment digit and the bit each hangs on, after
    the comment on the table: "this is based on following order: E, D, DP,
    C, G, B, F, A", counted from bit 0. *)
Inductive Segment : Type :=
| SegA | SegB | SegC | SegD | SegE | SegF | SegG | SegDP.

Definition segmentBit (x : Segment) : Z :=
  match x with
  | SegE => 0 | SegD => 1 | SegDP => 2 | SegC => 3
  | SegG => 4 | SegB => 5 | SegF => 6 | SegA => 7
  end.

Definition Segment_eqb (x y : Segment) : bool :=
  segmentBit x =? segmentBit y.

(** The figure of each decimal digit on seven segments. *)
Definition figure (d : Z) : list Segment :=
  match d with
  | 0 => [SegA; SegB; SegC; SegD; SegE; SegF]
  | 1 => [SegB; SegC]
  | 2 => [SegA; SegB; SegD; SegE; SegG]
  | 3 => [SegA; SegB; SegC; SegD; SegG]
  | 4 => [SegB; SegC; SegF; SegG]
  | 5 => [SegA; SegC; SegD; SegF; SegG]
  | 6 => [SegA; SegC; SegD; SegE; SegF; SegG]
  | 7 => [SegA; SegB; SegC]
  | 8 => [SegA; SegB; SegC; SegD; SegE; SegF; SegG]
  | 9 => [SegA; SegB; SegC; SegD; SegF; SegG]
  | _ => []
  end.

Definition lights (value : Z) (x : Segment) : bool :=
  Z.testbit value (segmentBit x).

(** What one turn of the loop of [doDisplay] does to the outside. *)
Definition showDigit (seg pin : Z) : list PinEvent :=
  [DigitalWrite ENABLE_PIN HIGH;
   ShiftOut DATA_PIN CLOCK_PIN MSBFIRST (u8 seg);
   DigitalWrite ENABLE_PIN LOW;
   DigitalWrite pin LOW;
   Delay DELAY_TIME;
   DigitalWrite pin HIGH].

(** How many polls of a run took the press branch. *)
Definition presses (flags : list bool) : nat := length (filter id flags).

(** * Properties *)

(** Proofs about a state start by naming its fields. *)
Ltac open_state s :=
  destruct s as [st td sd lt te ts ss bpm ct per enc tl rl out];
  cbn [started lastTapDebounceTime lastStartDebounceTime lastTapTime
       tapExpireTime lastTapState lastStartState tempo currentTick
       timerPeriod encoderCount tempoLed runningLed midiOut] in *.

Ltac fields :=
  cbn [started lastTapDebounceTime lastStartDebounceTime lastTapTime
       tapExpireTime lastTapState lastStartState tempo currentTick
       timerPeriod encoderCount tempoLed runningLed midiOut
       set_started set_lastTapDebounceTime set_lastStartDebounceTime
       set_lastTapTime set_tapExpireTime set_lastTapState set_lastStartState
       set_tempo set_currentTick set_timerPeriod set_encoderCount
       set_tempoLed set_runningLed set_midiOut
       send sendRealTime sendControlChange Timer1_setPeriod
       tempoEncoder_write bind] in *.

(** ** Machine integers *)

Lemma u32_small x : 0 <= x < 2 ^ 32 -> u32 x = x.
Proof. intros H. unfold u32. now apply Z.mod_small. Qed.

Lemma u8_small x : 0 <= x < 2 ^ 8 -> u8 x = x.
Proof. intros H. unfold u8. now apply Z.mod_small. Qed.

Lemma s16_small x : - 2 ^ 15 <= x < 2 ^ 15 -> s16 x = x.
Proof. intros H. unfold s16. rewrite Z.mod_small; lia. Qed.

Lemma s32_small x : - 2 ^ 31 <= x < 2 ^ 31 -> s32 x = x.
Proof. intros H. unfold s32. rewrite Z.mod_small; lia. Qed.

(** Unsigned subtraction that wraps below zero. *)
Lemma u32_sub_wrap a b :
  0 <= a < b -> b <= 2 ^ 32 -> u32 (a - b) = a - b + 2 ^ 32.
Proof.
  intros Ha Hb. unfold u32. symmetry.
  apply Z.mod_unique with (q := -1); lia.
Qed.

(** ** Period computation *)

Lemma tick_divisor_valid t :
  TEMPO_MIN <= t <= TEMPO_MAX -> s16 (t * PPQ) = t * 24 /\ 0 < t * 24.
Proof.
  unfold TEMPO_MIN, TEMPO_MAX, PPQ. intros H.
  split; [apply s16_small|]; lia.
Qed.

Lemma calcTempoMicros_in_range s :
  TEMPO_MIN <= tempo s <= TEMPO_MAX ->
  calcTempoMicros s = Some (60000000 / (tempo s * 24)).
Proof.
  intros H. destruct (tick_divisor_valid _ H) as [Hd Hpos].
  unfold calcTempoMicros. rewrite Hd.
  destruct (Z.eqb_spec (tempo s * 24) 0) as [E|_]; [lia|].
  change (60 * 1000000) with 60000000.
  rewrite Z.quot_div_nonneg by lia.
  f_equal. apply s32_small.
  assert (0 <= 60000000 / (tempo s * 24)) by (apply Z.div_pos; lia).
  assert (60000000 / (tempo s * 24) <= 60000000)
    by (apply Z.div_le_upper_bound; unfold TEMPO_MIN in H; nia).
  lia.
Qed.

(** C1.  For every tempo [t] between [TEMPO_MIN] and [TEMPO_MAX],
    [calcTempoMicros] returns exactly [60,000,000 / (t * 24)], the quotient
    of integer division; the period lies between 8333 and 62500
    microseconds. *)
Theorem calcTempoMicros_exact (s : State) :
  TEMPO_MIN <= tempo s <= TEMPO_MAX ->
  calcTempoMicros s = Some (60000000 / (tempo s * 24))
  /\ 8333 <= 60000000 / (tempo s * 24) <= 62500.
Proof.
  intros H. split; [now apply calcTempoMicros_in_range|].
  unfold TEMPO_MIN, TEMPO_MAX in H. split.
  - apply Z.div_le_lower_bound; lia.
  - apply Z.div_le_upper_bound; lia.
Qed.

Lemma calcTempoMicros_exact_witness :
  TEMPO_MIN <= tempo (initial HIGH HIGH) <= TEMPO_MAX
  /\ calcTempoMicros (initial HIGH HIGH) = Some 20833.
Proof.
  split.
  - simpl. unfold TEMPO_MIN, TEMPO_MAX. lia.
  - apply (calcTempoMicros_exact (initial HIGH HIGH)).
    simpl. unfold TEMPO_MIN, TEMPO_MAX. lia.
Defined.

(** ** Step adjustment *)

Lemma clamp_range x : TEMPO_MIN <= clamp x <= TEMPO_MAX.
Proof. unfold clamp, TEMPO_MIN, TEMPO_MAX. lia. Qed.

(** [changeTempo] never faults; the tempo it leaves is the clamp of the
    16-bit sum, and Timer1 gets the period of that tempo. *)
Lemma changeTempo_clamps offset s :
  exists s',
    changeTempo offset s = Some s'
    /\ tempo s' = clamp (s16 (tempo s + offset))
    /\ timerPeriod s' = 60000000 / (tempo s' * 24)
    /\ midiOut s' = midiOut s
    /\ currentTick s' = currentTick s
    /\ started s' = started s.
Proof.
  open_state s. unfold changeTempo. fields.
  set (t := s16 (bpm + offset)).
  assert (Hc : TEMPO_MIN <= clamp t <= TEMPO_MAX) by apply clamp_range.
  assert (E : (if t <? TEMPO_MIN
               then mkState st td sd lt te ts ss TEMPO_MIN ct per enc tl rl out
               else if t >? TEMPO_MAX
               then mkState st td sd lt te ts ss TEMPO_MAX ct per enc tl rl out
               else mkState st td sd lt te ts ss t ct per enc tl rl out)
              = mkState st td sd lt te ts ss (clamp t) ct per enc tl rl out).
  { unfold clamp, TEMPO_MIN, TEMPO_MAX.
    destruct (Z.ltb_spec t 40); [f_equal; lia|].
    destruct (Z.gtb_spec t 300); f_equal; lia. }
  match goal with
  | |- context [if t <? TEMPO_MIN then ?a else ?b] =>
      change (if t <? TEMPO_MIN then a else b)
        with (if t <? TEMPO_MIN
              then mkState st td sd lt te ts ss TEMPO_MIN ct per enc tl rl out
              else if t >? TEMPO_MAX
              then mkState st td sd lt te ts ss TEMPO_MAX ct per enc tl rl out
              else mkState st td sd lt te ts ss t ct per enc tl rl out)
  end.
  rewrite E.
  rewrite calcTempoMicros_in_range by exact Hc.
  fields. eexists. split; [reflexivity|]. fields. repeat split; reflexivity.
Qed.

Lemma changeTempo_step s offset :
  TEMPO_MIN <= tempo s <= TEMPO_MAX -> -1 <= offset <= 1 ->
  exists s',
    changeTempo offset s = Some s' /\ tempo s' = clamp (tempo s + offset).
Proof.
  intros H Ho.
  destruct (changeTempo_clamps offset s) as (s' & E & Ht & _).
  exists s'. split; [exact E|].
  rewrite Ht, s16_small; [reflexivity|].
  unfold TEMPO_MIN, TEMPO_MAX in H. lia.
Qed.

(** C9.  From a tempo [t] in [[TEMPO_MIN, TEMPO_MAX]], [changeTempo(+1)]
    followed by [changeTempo(-1)] gives [t] back unless [t = TEMPO_MAX],
    where the step up is absorbed (the tempo stays [TEMPO_MAX]) and the step
    down then lands on [TEMPO_MAX - 1]; symmetrically for [-1] then [+1] at
    [TEMPO_MIN].  In every state and for every offset [changeTempo] returns,
    and the tempo it leaves is [tempo + offset] (as a 16-bit [int]) clamped
    into [[TEMPO_MIN, TEMPO_MAX]]. *)
Theorem changeTempo_round_trip (s : State) :
  TEMPO_MIN <= tempo s <= TEMPO_MAX ->
  (exists up down,
      changeTempo 1 s = Some up /\ changeTempo (-1) up = Some down
      /\ (tempo s < TEMPO_MAX -> tempo up = tempo s + 1 /\ tempo down = tempo s)
      /\ (tempo s = TEMPO_MAX ->
          tempo up = TEMPO_MAX /\ tempo down = TEMPO_MAX - 1))
  /\ (exists down up,
      changeTempo (-1) s = Some down /\ changeTempo 1 down = Some up
      /\ (TEMPO_MIN < tempo s -> tempo down = tempo s - 1 /\ tempo up = tempo s)
      /\ (tempo s = TEMPO_MIN ->
          tempo down = TEMPO_MIN /\ tempo up = TEMPO_MIN + 1))
  /\ (forall offset s0, exists s',
      changeTempo offset s0 = Some s'
      /\ tempo s' = clamp (s16 (tempo s0 + offset))
      /\ TEMPO_MIN <= tempo s' <= TEMPO_MAX
      /\ (- 2 ^ 15 <= tempo s0 + offset < 2 ^ 15 ->
          tempo s' = clamp (tempo s0 + offset))).
Proof.
  intros H. split; [|split].
  - destruct (changeTempo_step s 1 H) as (up & E1 & T1); [lia|].
    assert (Hup : TEMPO_MIN <= tempo up <= TEMPO_MAX)
      by (rewrite T1; apply clamp_range).
    destruct (changeTempo_step up (-1) Hup) as (down & E2 & T2); [lia|].
    exists up, down. repeat split; try assumption;
      rewrite ?T2, ?T1; unfold clamp, TEMPO_MIN, TEMPO_MAX in *; lia.
  - destruct (changeTempo_step s (-1) H) as (down & E1 & T1); [lia|].
    assert (Hdn : TEMPO_MIN <= tempo down <= TEMPO_MAX)
      by (rewrite T1; apply clamp_range).
    destruct (changeTempo_step down 1 Hdn) as (up & E2 & T2); [lia|].
    exists down, up. repeat split; try assumption;
      rewrite ?T2, ?T1; unfold clamp, TEMPO_MIN, TEMPO_MAX in *; lia.
  - intros offset s0.
    destruct (changeTempo_clamps offset s0) as (s' & E & Ht & _).
    exists s'. repeat split; try assumption.
    + rewrite Ht. apply clamp_range.
    + rewrite Ht. apply clamp_range.
    + intros Hfit. rewrite Ht, s16_small; [reflexivity|exact Hfit].
Qed.

Lemma changeTempo_round_trip_witness :
  exists up down,
    changeTempo 1 (initial HIGH HIGH) = Some up
    /\ changeTempo (-1) up = Some down
    /\ tempo up = 121 /\ tempo down = 120.
Proof.
  assert (R : TEMPO_MIN <= tempo (initial HIGH HIGH) <= TEMPO_MAX)
    by (simpl; unfold TEMPO_MIN, TEMPO_MAX; lia).
  destruct (changeTempo_round_trip (initial HIGH HIGH) R)
    as ((up & down & E1 & E2 & Hlt & _) & _).
  exists up, down.
  assert (L : tempo (initial HIGH HIGH) < TEMPO_MAX)
    by (simpl; unfold TEMPO_MAX; lia).
  destruct (Hlt L) as [Hu Hd]. simpl in Hu, Hd. auto.
Defined.

(** ** Tap tempo *)

(** A first tap: the estimator is idle, the tap only records its time. *)
Lemma tapTempo_first us s :
  lastTapTime s = 0 ->
  tapTempo us s = Some (set_tapExpireTime TAP_EXPIRE_DEFAULT
                          (set_lastTapTime us s)).
Proof. intros H. unfold tapTempo. rewrite H. reflexivity. Qed.

(** A second tap [delta] microseconds after the recorded one, for a
    [delta] that gives a tempo in the range of the period computation. *)
Lemma tapTempo_second us s delta :
  lastTapTime s <> 0 ->
  u32 (us - lastTapTime s) = delta ->
  0 < delta ->
  TEMPO_MIN <= 60000000 / delta <= TEMPO_MAX ->
  exists s',
    tapTempo us s = Some s'
    /\ tempo s' = 60000000 / delta
    /\ tapExpireTime s' = u32 (delta * 2)
    /\ lastTapTime s' = us
    /\ timerPeriod s' = 60000000 / (60000000 / delta * 24).
Proof.
  intros Hl Hd Hpos Hr. open_state s. unfold tapTempo. fields.
  destruct (Z.eqb_spec lt 0) as [E|_]; [contradiction|].
  rewrite Hd.
  destruct (Z.eqb_spec delta 0) as [E|_]; [lia|].
  rewrite (s16_small (60000000 / delta))
    by (unfold TEMPO_MIN, TEMPO_MAX in Hr; lia).
  rewrite calcTempoMicros_in_range by exact Hr.
  fields. eexists. split; [reflexivity|]. fields.
  repeat split; reflexivity.
Qed.

(** C2.  The tempo written by [tapTempo] is not clamped.  From the state
    after [setup], with both buttons released: a press of the tap button at
    5.000 s, its release, and a second press 100 ms later leave the tempo at
    600; a second press 1.6 s later (inside the default expiry window)
    leaves it at 37.  Both are outside [[TEMPO_MIN, TEMPO_MAX]]. *)
Theorem tapTempo_escapes_tempo_range :
  let at_ms level ms := mkPoll level ms ms (ms * 1000) in
  (exists bs s,
      pollTap [at_ms LOW 5000; at_ms LOW 5040; at_ms HIGH 5050;
               at_ms HIGH 5090; at_ms LOW 5100] (initial HIGH HIGH)
      = Some (bs, s)
      /\ tempo s = 600 /\ ~ (TEMPO_MIN <= tempo s <= TEMPO_MAX))
  /\ (exists bs s,
      pollTap [at_ms LOW 5000; at_ms LOW 5040; at_ms HIGH 5050;
               at_ms HIGH 5090; at_ms LOW 6600] (initial HIGH HIGH)
      = Some (bs, s)
      /\ tempo s = 37 /\ ~ (TEMPO_MIN <= tempo s <= TEMPO_MAX)).
Proof.
  cbv zeta. split.
  - eexists _, _. split; [vm_compute; reflexivity|].
    cbn. unfold TEMPO_MIN, TEMPO_MAX. split; [reflexivity|lia].
  - eexists _, _. split; [vm_compute; reflexivity|].
    cbn. unfold TEMPO_MIN, TEMPO_MAX. split; [reflexivity|lia].
Qed.

(** [tapTempo] touches neither the debounce record of the button nor the
    transport and the tick counter. *)
Lemma tapTempo_debounce us s s' :
  tapTempo us s = Some s' ->
  lastTapDebounceTime s' = lastTapDebounceTime s
  /\ lastTapState s' = lastTapState s.
Proof.
  open_state s. unfold tapTempo. fields.
  destruct (lt =? 0); [intros [= <-]; auto|].
  destruct (u32 (us - lt) =? 0); [discriminate|].
  destruct (calcTempoMicros _) as [q|]; fields; [|discriminate].
  intros [= <-]. auto.
Qed.

Lemma tapTempo_frame us s s' :
  tapTempo us s = Some s' ->
  currentTick s' = currentTick s
  /\ started s' = started s
  /\ midiOut s' = midiOut s.
Proof.
  open_state s. unfold tapTempo. fields.
  destruct (lt =? 0); [intros [= <-]; auto|].
  destruct (u32 (us - lt) =? 0); [discriminate|].
  destruct (calcTempoMicros _) as [q|]; fields; [|discriminate].
  intros [= <-]. auto.
Qed.

Lemma tapPress_guards p s :
  tapPress p s = true ->
  negb (pinLevel p =? lastTapState s) = true
  /\ (lastTapDebounceTime s =? 0) = true
  /\ u8 (pinLevel p) = LOW.
Proof.
  unfold tapPress. intros H.
  apply andb_prop in H. destruct H as [H Hlow].
  apply andb_prop in H. destruct H as [Hne Hidle].
  apply Z.eqb_eq in Hlow. auto.
Qed.

Lemma close_tap_timer p s :
  (if u32 (millisEnd p - DEBOUNCE_TIME) >=? lastTapDebounceTime s
   then set_lastTapDebounceTime 0 s else s)
  = set_lastTapDebounceTime (timerAfter p (lastTapDebounceTime s)) s.
Proof.
  open_state s. unfold timerAfter.
  destruct (u32 (millisEnd p - DEBOUNCE_TIME) >=? td); reflexivity.
Qed.

Lemma close_start_timer p s :
  (if u32 (millisEnd p - DEBOUNCE_TIME) >=? lastStartDebounceTime s
   then set_lastStartDebounceTime 0 s else s)
  = set_lastStartDebounceTime (timerAfter p (lastStartDebounceTime s)) s.
Proof.
  open_state s. unfold timerAfter.
  destruct (u32 (millisEnd p - DEBOUNCE_TIME) >=? sd); reflexivity.
Qed.

(** A poll that takes the press branch is a call of [tapTempo]. *)
Lemma doTapInput_press p s :
  tapPress p s = true ->
  doTapInput p s =
    (s1 <- tapTempo (microsNow p)
             (set_lastTapState LOW
                (set_lastTapDebounceTime (millisEdge p) s)) ;;
     Some (set_lastTapDebounceTime (timerAfter p (lastTapDebounceTime s1))
             s1)).
Proof.
  intros Hp. destruct (tapPress_guards p s Hp) as (Hne & Hidle & Hlow).
  unfold doTapInput. rewrite Hne, Hidle, Hlow.
  open_state s. fields. cbn [LOW Z.eqb].
  destruct (tapTempo _ _) as [s1|]; [|reflexivity].
  fields. now rewrite close_tap_timer.
Qed.

(** A poll that does not take the press branch does not call [tapTempo]:
    it returns, the tempo, the period and the expiry window stay, and the
    recorded tap time stays or is cleared. *)
Lemma doTapInput_no_press p s :
  tapPress p s = false ->
  exists s',
    doTapInput p s = Some s'
    /\ tempo s' = tempo s
    /\ timerPeriod s' = timerPeriod s
    /\ tapExpireTime s' = tapExpireTime s
    /\ (lastTapTime s' = lastTapTime s \/ lastTapTime s' = 0).
Proof.
  unfold tapPress, doTapInput. intros H.
  destruct (negb (pinLevel p =? lastTapState s)); cbn [andb] in H.
  - destruct (lastTapDebounceTime s =? 0); cbn [andb] in H.
    + open_state s. fields. rewrite H. fields.
      destruct (u32 (millisEnd p - DEBOUNCE_TIME) >=? millisEdge p);
        eexists; (split; [reflexivity|]); fields; auto.
    + cbn [bind]. rewrite close_tap_timer.
      eexists. split; [reflexivity|]. open_state s. fields. auto.
  - destruct ((lastTapTime s >? 0) && _); cbn [bind];
      rewrite close_tap_timer; eexists; (split; [reflexivity|]);
      open_state s; fields; auto.
Qed.

(** C3.  [tapTempo] has no guard for a zero interval.  With a tap recorded,
    a tap stamped with the same [micros()] reading divides 60000000 by zero;
    the same holds when that tap arrives through [doTapInput]. *)
Theorem tapTempo_zero_interval_divides_by_zero (s : State) :
  lastTapTime s <> 0 ->
  tapTempo (lastTapTime s) s = None
  /\ (forall p, tapPress p s = true -> microsNow p = lastTapTime s ->
                doTapInput p s = None).
Proof.
  intros H.
  assert (T : forall s0, lastTapTime s0 <> 0 ->
                         tapTempo (lastTapTime s0) s0 = None).
  { intros s0 H0. unfold tapTempo.
    destruct (Z.eqb_spec (lastTapTime s0) 0) as [E|_]; [contradiction|].
    rewrite Z.sub_diag. reflexivity. }
  split; [apply T, H|].
  intros p Hp Hus. rewrite (doTapInput_press p s Hp), Hus.
  open_state s. fields.
  pose proof (T (mkState st (millisEdge p) sd lt te LOW ss bpm ct per enc
                   tl rl out) H) as T0.
  fields. rewrite T0. reflexivity.
Qed.

Lemma tapTempo_zero_interval_witness :
  tapTempo 1000 (set_lastTapTime 1000 (initial HIGH HIGH)) = None.
Proof.
  apply (tapTempo_zero_interval_divides_by_zero
           (set_lastTapTime 1000 (initial HIGH HIGH))).
  simpl. lia.
Defined.

(** C7, as stated: the first tap is stamped 0.  [lastTapTime = 0] is how
    the sketch marks an empty history, so the tap at 500000 is taken for a
    first tap: the window is reset to [TAP_EXPIRE_DEFAULT] and the tempo is
    left as it was. *)
Lemma tap_pair_from_zero_is_first_tap :
  ~ tap_pair_sets_120 0 (initial HIGH HIGH)
  /\ ~ tap_pair_sets_120 0 (set_tempo 100 (initial HIGH HIGH))
  /\ (exists s1 s2,
        tapTempo 0 (set_tempo 100 (initial HIGH HIGH)) = Some s1
        /\ tapTempo 500000 s1 = Some s2
        /\ tempo s2 = 100 /\ tapExpireTime s2 = TAP_EXPIRE_DEFAULT
        /\ lastTapTime s2 = 500000).
Proof.
  split; [|split].
  - intros (s1 & s2 & E1 & E2 & _ & He & _).
    vm_compute in E1. injection E1 as <-.
    vm_compute in E2. injection E2 as <-.
    vm_compute in He. discriminate He.
  - intros (s1 & s2 & E1 & E2 & Ht & _).
    vm_compute in E1. injection E1 as <-.
    vm_compute in E2. injection E2 as <-.
    vm_compute in Ht. discriminate Ht.
  - eexists _, _. split; [vm_compute; reflexivity|].
    split; [vm_compute; reflexivity|]. cbn. auto.
Qed.

(** C7, amended.  For a first tap stamped [T <> 0] that found the estimator
    idle, the tap 500,000 microseconds later (the reading may have wrapped)
    sets the tempo to exactly 120, the expiry window to 1,000,000 and the
    recorded tap time to its own reading; Timer1 is reprogrammed to the
    period of 120 BPM. *)
Theorem tap_pair_500ms_sets_120 (T : Z) (s0 : State) :
  lastTapTime s0 = 0 ->
  0 < T < 2 ^ 32 ->
  tap_pair_sets_120 T s0
  /\ (forall s1 s2, tapTempo T s0 = Some s1 ->
        tapTempo (u32 (T + 500000)) s1 = Some s2 -> timerPeriod s2 = 20833).
Proof.
  intros Hidle HT.
  pose proof (tapTempo_first T s0 Hidle) as E1.
  set (s1 := set_tapExpireTime TAP_EXPIRE_DEFAULT (set_lastTapTime T s0))
    in E1.
  assert (L1 : lastTapTime s1 = T) by (subst s1; open_state s0; reflexivity).
  assert (Hd : u32 (u32 (T + 500000) - lastTapTime s1) = 500000).
  { rewrite L1. unfold u32.
    rewrite Zminus_mod_idemp_l.
    replace (T + 500000 - T) with 500000 by ring. reflexivity. }
  destruct (tapTempo_second (u32 (T + 500000)) s1 500000)
    as (s2 & E2 & T2 & X2 & L2 & P2).
  - rewrite L1. lia.
  - exact Hd.
  - lia.
  - vm_compute. split; discriminate.
  - split.
    + exists s1, s2. repeat split; assumption.
    + intros s1' s2' E1' E2'.
      rewrite E1 in E1'. injection E1' as <-.
      rewrite E2 in E2'. injection E2' as <-.
      exact P2.
Qed.

Lemma tap_pair_500ms_witness :
  tap_pair_sets_120 5000000 (initial HIGH HIGH).
Proof.
  apply (tap_pair_500ms_sets_120 5000000 (initial HIGH HIGH)).
  - reflexivity.
  - lia.
Defined.

Lemma doTapInput_idle p s :
  idlePoll p s ->
  doTapInput p s =
    Some (set_lastTapDebounceTime (timerAfter p (lastTapDebounceTime s))
            (if tapExpired p s then set_lastTapTime 0 s else s)).
Proof.
  intros H. unfold idlePoll in H. unfold doTapInput, tapExpired.
  rewrite H, Z.eqb_refl. cbn [negb].
  destruct ((lastTapTime s >? 0)
            && (u32 (microsNow p - tapExpireTime s) >=? lastTapTime s));
    cbn [bind]; rewrite close_tap_timer; open_state s; reflexivity.
Qed.

(** While [micros()] has not rolled over since the tap: with a tap
    recorded ([lastTapTime <> 0]) and an idle poll at a reading [now] of
    [micros()] such that [now - lastTapTime >= tapExpireTime] as a plain
    difference, the poll clears the history: [lastTapTime] becomes 0.
    The next tap is then a first tap: it records its own timestamp, resets
    the window to [TAP_EXPIRE_DEFAULT] and leaves the tempo and the period
    of Timer1 alone, by [tapTempo] itself and by the press poll that calls
    it. *)
Theorem idle_poll_expires_tap (p : Poll) (s : State) :
  idlePoll p s ->
  0 < lastTapTime s < 2 ^ 32 ->
  0 <= tapExpireTime s ->
  microsNow p < 2 ^ 32 ->
  microsNow p - lastTapTime s >= tapExpireTime s ->
  exists s1,
    doTapInput p s = Some s1
    /\ lastTapTime s1 = 0
    /\ (forall us, exists s2,
          tapTempo us s1 = Some s2
          /\ lastTapTime s2 = us
          /\ tapExpireTime s2 = TAP_EXPIRE_DEFAULT
          /\ tempo s2 = tempo s
          /\ timerPeriod s2 = timerPeriod s)
    /\ (forall q, tapPress q s1 = true -> exists s2,
          doTapInput q s1 = Some s2
          /\ lastTapTime s2 = microsNow q
          /\ tapExpireTime s2 = TAP_EXPIRE_DEFAULT
          /\ tempo s2 = tempo s
          /\ timerPeriod s2 = timerPeriod s).
Proof.
  intros Hidle Hl He Hn Hexp.
  assert (X : tapExpired p s = true).
  { unfold tapExpired. rewrite u32_small by lia.
    destruct (Z.gtb_spec (lastTapTime s) 0); [|lia].
    destruct (Z.geb_spec (microsNow p - tapExpireTime s) (lastTapTime s));
      [reflexivity|lia]. }
  rewrite (doTapInput_idle p s Hidle), X.
  eexists. split; [reflexivity|].
  open_state s. fields. split; [reflexivity|]. split.
  - intros us. rewrite tapTempo_first by reflexivity.
    eexists. split; [reflexivity|]. fields. repeat split; reflexivity.
  - intros q Hq. rewrite (doTapInput_press q _ Hq). fields.
    rewrite tapTempo_first by reflexivity. fields.
    eexists. split; [reflexivity|]. fields. repeat split; reflexivity.
Qed.

Lemma idle_poll_expires_tap_witness :
  exists s1,
    doTapInput (mkPoll HIGH 6715 6715 6715000)
      (set_lastTapTime 5000000 (initial HIGH HIGH)) = Some s1
    /\ lastTapTime s1 = 0.
Proof.
  destruct (idle_poll_expires_tap (mkPoll HIGH 6715 6715 6715000)
              (set_lastTapTime 5000000 (initial HIGH HIGH)))
    as (s1 & E & L & _).
  - reflexivity.
  - simpl. lia.
  - simpl. unfold TAP_EXPIRE_DEFAULT. lia.
  - simpl. lia.
  - simpl. unfold TAP_EXPIRE_DEFAULT. lia.
  - exists s1. split; assumption.
Defined.

(** C8.  The idle poll does not clear every tap that is older than its
    window.  Line 178 tests [micros() - tapExpireTime >= lastTapTime]; once
    [micros()] has rolled over since the tap, a reading [now] that is at
    least the window but below [lastTapTime] fails the test, although the
    time since the tap, [now - lastTapTime] in 32 bits, is at least the
    window.  The poll returns with the tap still recorded, and whatever the
    next call of [tapTempo] returns is the result of a second tap: the
    window and the tempo are computed from the interval to the tap that
    should have expired. *)
Theorem idle_poll_keeps_expired_tap_after_rollover (p : Poll) (s : State) :
  idlePoll p s ->
  0 <= tapExpireTime s <= microsNow p ->
  microsNow p < lastTapTime s < 2 ^ 32 ->
  u32 (microsNow p - lastTapTime s) >= tapExpireTime s ->
  exists s1,
    doTapInput p s = Some s1
    /\ tapExpired p s = false
    /\ lastTapTime s1 = lastTapTime s
    /\ lastTapTime s1 <> 0
    /\ (forall us s2,
          tapTempo us s1 = Some s2 ->
          lastTapTime s2 = us
          /\ tapExpireTime s2
             = u32 (u32 (us - lastTapTime s) * TAP_EXPIRE_FACTOR)
          /\ tempo s2 = s16 (60000000 / u32 (us - lastTapTime s))).
Proof.
  intros Hidle He Hl Hold.
  assert (X : tapExpired p s = false).
  { unfold tapExpired. rewrite u32_small by lia.
    destruct (Z.geb_spec (microsNow p - tapExpireTime s) (lastTapTime s));
      [lia|apply andb_false_r]. }
  rewrite (doTapInput_idle p s Hidle), X.
  eexists. split; [reflexivity|]. split; [reflexivity|].
  open_state s. fields. split; [reflexivity|]. split; [lia|].
  intros us s2. unfold tapTempo. fields.
  destruct (Z.eqb_spec lt 0) as [E|_]; [lia|].
  destruct (u32 (us - lt) =? 0); [discriminate|].
  destruct (calcTempoMicros _) as [q|]; fields; [|discriminate].
  intros [= <-]. fields. repeat split; reflexivity.
Qed.

Lemma idle_poll_keeps_expired_tap_after_rollover_witness :
  exists s s1 s2,
    doTapInput (mkPoll LOW 4294966 4294966 4294966296) (initial HIGH HIGH)
    = Some s
    /\ lastTapTime s = 4294966296
    /\ tapExpireTime s = 1715000
    /\ u32 (1999000 - lastTapTime s) = 2000000
    /\ doTapInput (mkPoll LOW 4296966 4296966 1999000) s = Some s1
    /\ lastTapTime s1 = 4294966296
    /\ tapTempo 2999000 s1 = Some s2
    /\ tempo s2 = 20.
Proof.
  pose (s := mkState false 4294966 0 4294966296 1715000 LOW HIGH 120 0 20833
               0 LOW LOW []).
  destruct (idle_poll_keeps_expired_tap_after_rollover
              (mkPoll LOW 4296966 4296966 1999000) s)
    as (s1 & E1 & _ & L1 & _ & T).
  - reflexivity.
  - simpl. lia.
  - simpl. lia.
  - vm_compute. discriminate.
  - assert (E2 : exists s2, tapTempo 2999000 s1 = Some s2).
    { vm_compute in E1. injection E1 as <-. vm_compute.
      eexists. reflexivity. }
    destruct E2 as (s2 & E2). destruct (T _ _ E2) as (_ & _ & B).
    exists s, s1, s2.
    split; [reflexivity|]. split; [reflexivity|]. split; [reflexivity|].
    split; [reflexivity|]. split; [exact E1|]. split; [exact L1|].
    split; [exact E2|exact B].
Defined.

(** ** The tick handler *)

(** One invocation, field by field. *)
Lemma clockTick_eq s :
  clockTick s =
    set_currentTick
      (if u8 (currentTick s + 1) =? 24 then 0 else u8 (currentTick s + 1))
      (set_tempoLed
         (if currentTick s =? 4 then LOW
          else if currentTick s =? 0 then HIGH else tempoLed s)
         (set_midiOut
            (if started s then midiOut s ++ [Clock] else midiOut s) s)).
Proof.
  open_state s. unfold clockTick.
  destruct st; fields;
    destruct (Z.eqb_spec ct 0) as [E0|E0]; fields;
    destruct (Z.eqb_spec ct 4) as [E4|E4]; fields;
    destruct (u8 (ct + 1) =? 24); fields; try reflexivity; lia.
Qed.

Lemma clockTick_started s : started (clockTick s) = started s.
Proof. rewrite clockTick_eq. open_state s. reflexivity. Qed.

Lemma clockTick_midiOut s :
  midiOut (clockTick s) =
    if started s then midiOut s ++ [Clock] else midiOut s.
Proof. rewrite clockTick_eq. open_state s. reflexivity. Qed.

Lemma clockTick_currentTick s :
  currentTick (clockTick s) =
    if u8 (currentTick s + 1) =? 24 then 0 else u8 (currentTick s + 1).
Proof. rewrite clockTick_eq. open_state s. reflexivity. Qed.

Lemma clockTick_tempoLed s :
  tempoLed (clockTick s) =
    if currentTick s =? 4 then LOW
    else if currentTick s =? 0 then HIGH else tempoLed s.
Proof. rewrite clockTick_eq. open_state s. reflexivity. Qed.

(** On a counter in [[0, 24)] one invocation is a step modulo 24. *)
Lemma clockTick_advances s :
  0 <= currentTick s < 24 ->
  currentTick (clockTick s) = (currentTick s + 1) mod 24
  /\ 0 <= currentTick (clockTick s) < 24.
Proof.
  intros H. rewrite clockTick_currentTick.
  rewrite u8_small by lia.
  destruct (Z.eqb_spec (currentTick s + 1) 24) as [E|E].
  - rewrite E. split; [reflexivity|lia].
  - rewrite Z.mod_small by lia. lia.
Qed.

Lemma ticks_S n s : ticks (S n) s = clockTick (ticks n s).
Proof.
  revert s. induction n as [|n IH]; intros s; [reflexivity|].
  change (ticks (S (S n)) s) with (ticks (S n) (clockTick s)).
  rewrite IH. reflexivity.
Qed.

Lemma ticks_started n s : started (ticks n s) = started s.
Proof.
  induction n as [|n IH]; [reflexivity|].
  rewrite ticks_S, clockTick_started. exact IH.
Qed.

Lemma ticks_currentTick n s :
  0 <= currentTick s < 24 ->
  currentTick (ticks n s) = (currentTick s + Z.of_nat n) mod 24.
Proof.
  intros H. induction n as [|n IH].
  - cbn [ticks]. rewrite Z.add_0_r, Z.mod_small; lia.
  - rewrite ticks_S.
    assert (R : 0 <= currentTick (ticks n s) < 24)
      by (rewrite IH; apply Z.mod_pos_bound; lia).
    destruct (clockTick_advances _ R) as [E _].
    rewrite E, IH, Nat2Z.inj_succ.
    rewrite Zplus_mod_idemp_l. f_equal. lia.
Qed.

Lemma ticks_midiOut_stopped n s :
  started s = false -> midiOut (ticks n s) = midiOut s.
Proof.
  intros H. induction n as [|n IH]; [reflexivity|].
  rewrite ticks_S, clockTick_midiOut, ticks_started, H. exact IH.
Qed.

Lemma ticks_midiOut_running n s :
  started s = true -> midiOut (ticks n s) = midiOut s ++ repeat Clock n.
Proof.
  intros H. induction n as [|n IH].
  - cbn. now rewrite app_nil_r.
  - rewrite ticks_S, clockTick_midiOut, ticks_started, H, IH.
    rewrite <- app_assoc. f_equal.
    change [Clock] with (repeat Clock 1).
    rewrite <- repeat_app. f_equal. lia.
Qed.

Lemma clockTick_ledFollowsTick s :
  ledFollowsTick s -> ledFollowsTick (clockTick s).
Proof.
  intros [R L]. destruct (clockTick_advances s R) as [E R'].
  split; [exact R'|].
  rewrite clockTick_tempoLed, E, L.
  assert (C : currentTick s = 23 \/ currentTick s < 23) by lia.
  destruct C as [C|C].
  - rewrite C. reflexivity.
  - rewrite Z.mod_small by lia.
    destruct (Z.eqb_spec (currentTick s) 4) as [E4|E4];
      [rewrite E4; reflexivity|].
    destruct (Z.eqb_spec (currentTick s) 0) as [E0|E0];
      [rewrite E0; reflexivity|].
    destruct (Z.leb_spec 1 (currentTick s)); [|lia].
    destruct (Z.leb_spec 1 (currentTick s + 1)); [|lia].
    destruct (Z.leb_spec (currentTick s) 4);
      destruct (Z.leb_spec (currentTick s + 1) 4); try lia; reflexivity.
Qed.

Lemma first_tick_ledFollowsTick s :
  currentTick s = 0 -> ledFollowsTick (clockTick s).
Proof.
  intros H. split.
  - apply clockTick_advances. lia.
  - rewrite clockTick_tempoLed, clockTick_currentTick, H. reflexivity.
Qed.

Lemma ticks_ledFollowsTick n s :
  ledFollowsTick s -> ledFollowsTick (ticks n s).
Proof.
  intros H. induction n as [|n IH]; [exact H|].
  rewrite ticks_S. now apply clockTick_ledFollowsTick.
Qed.

(** C6.  From a counter at 0, the counter found by the invocation number
    [n] (counting from 0) is [n mod 24], so it runs 0, 1, ..., 23, 0, 1, ...
    and stays in [[0, 24)]; one more invocation always succeeds it by one
    modulo 24.  The tempo indicator, once that invocation has run, is high
    exactly when the counter it found is 0, 1, 2 or 3 and low exactly when
    it is 4 to 23; in terms of the counter it left behind, high exactly on
    1 to 4. *)
Theorem tick_counter_cycle (s : State) (n : nat) :
  currentTick s = 0 ->
  currentTick (ticks n s) = Z.of_nat n mod 24
  /\ 0 <= currentTick (ticks n s) < 24
  /\ currentTick (ticks (S n) s) = (currentTick (ticks n s) + 1) mod 24
  /\ (tempoLed (ticks (S n) s) = HIGH <-> currentTick (ticks n s) < 4)
  /\ (tempoLed (ticks (S n) s) = LOW <-> 4 <= currentTick (ticks n s))
  /\ (tempoLed (ticks (S n) s) = HIGH <->
      1 <= currentTick (ticks (S n) s) <= 4).
Proof.
  intros H0.
  assert (R0 : 0 <= currentTick s < 24) by lia.
  assert (C : currentTick (ticks n s) = Z.of_nat n mod 24)
    by (rewrite ticks_currentTick, H0 by exact R0; reflexivity).
  assert (R : 0 <= currentTick (ticks n s) < 24)
    by (rewrite C; apply Z.mod_pos_bound; lia).
  split; [exact C|]. split; [exact R|].
  rewrite ticks_S. destruct (clockTick_advances _ R) as [E R'].
  split; [exact E|].
  assert (F : ledFollowsTick (clockTick (ticks n s))).
  { destruct n as [|n]; [now apply first_tick_ledFollowsTick|].
    apply clockTick_ledFollowsTick.
    change (ticks (S n) s) with (ticks n (clockTick s)).
    apply ticks_ledFollowsTick. now apply first_tick_ledFollowsTick. }
  destruct F as [_ L]. rewrite L, E.
  set (c := currentTick (ticks n s)) in *.
  assert (D : c = 23 \/ c < 23) by lia.
  destruct D as [D|D].
  - rewrite D. cbn. unfold HIGH, LOW. repeat split; intros; lia.
  - rewrite Z.mod_small by lia.
    destruct (Z.leb_spec 1 (c + 1)); [|lia].
    destruct (Z.leb_spec (c + 1) 4); cbn; unfold HIGH, LOW;
      repeat split; intros; lia.
Qed.

Lemma tick_counter_cycle_witness :
  currentTick (ticks 27 (initial HIGH HIGH)) = 3
  /\ tempoLed (ticks 28 (initial HIGH HIGH)) = HIGH.
Proof.
  destruct (tick_counter_cycle (initial HIGH HIGH) 27)
    as (C & _ & _ & Hh & _); [reflexivity|].
  split; [exact C|]. apply Hh. rewrite C. reflexivity.
Defined.

(** ** Transport *)

Lemma fold_send_eq (l : list Z) s :
  fold_left (fun s i => sendControlChange 123 0 i s) l s
  = set_midiOut (midiOut s ++ map (ControlChange 123 0) l) s.
Proof.
  revert s. induction l as [|i l IH]; intros s; cbn [fold_left map].
  - rewrite app_nil_r. open_state s. reflexivity.
  - rewrite IH. open_state s. fields. now rewrite <- app_assoc.
Qed.

Lemma allNotesOff_eq s :
  allNotesOff s
  = set_midiOut (midiOut s ++ map (ControlChange 123 0) channels) s.
Proof. apply fold_send_eq. Qed.

Lemma startPress_guards p s :
  startPress p s = true ->
  negb (pinLevel p =? lastStartState s) = true
  /\ (lastStartDebounceTime s =? 0) = true
  /\ u8 (pinLevel p) = LOW.
Proof.
  unfold startPress. intros H.
  apply andb_prop in H. destruct H as [H Hlow].
  apply andb_prop in H. destruct H as [Hne Hidle].
  apply Z.eqb_eq in Hlow. auto.
Qed.

(** The two branches of a press, as one assignment each. *)
Lemma doStartStopInput_start p s :
  startPress p s = true -> started s = false ->
  doStartStopInput p s =
    set_lastStartDebounceTime (timerAfter p (millisEdge p))
      (set_currentTick 0
         (set_runningLed HIGH
            (set_midiOut (midiOut s ++ [Start])
               (set_started true (set_lastStartState LOW s))))).
Proof.
  intros Hp Hs. destruct (startPress_guards p s Hp) as (Hne & Hidle & Hlow).
  unfold doStartStopInput. rewrite Hne, Hidle, Hlow.
  open_state s. fields. subst st. cbn [LOW Z.eqb negb]. fields.
  unfold timerAfter.
  destruct (u32 (millisEnd p - DEBOUNCE_TIME) >=? millisEdge p); reflexivity.
Qed.

Lemma doStartStopInput_stop p s :
  startPress p s = true -> started s = true ->
  doStartStopInput p s =
    set_lastStartDebounceTime (timerAfter p (millisEdge p))
      (set_runningLed LOW
         (set_midiOut (midiOut s ++ stopMessages)
            (set_started false (set_lastStartState LOW s)))).
Proof.
  intros Hp Hs. destruct (startPress_guards p s Hp) as (Hne & Hidle & Hlow).
  unfold doStartStopInput. rewrite Hne, Hidle, Hlow.
  open_state s. fields. subst st. cbn [LOW Z.eqb negb]. fields.
  rewrite allNotesOff_eq. fields. unfold timerAfter, stopMessages.
  rewrite <- app_assoc. cbn [app].
  destruct (u32 (millisEnd p - DEBOUNCE_TIME) >=? millisEdge p); reflexivity.
Qed.

(** A poll that does not take the press branch leaves everything but the
    debounce record of the button alone. *)
Lemma doStartStopInput_no_press p s :
  startPress p s = false ->
  doStartStopInput p s =
    if negb (pinLevel p =? lastStartState s) && (lastStartDebounceTime s =? 0)
    then set_lastStartDebounceTime (timerAfter p (millisEdge p))
           (set_lastStartState (u8 (pinLevel p)) s)
    else set_lastStartDebounceTime (timerAfter p (lastStartDebounceTime s)) s.
Proof.
  unfold startPress, doStartStopInput. intros H.
  destruct (negb (pinLevel p =? lastStartState s)); cbn [andb] in *.
  - destruct (lastStartDebounceTime s =? 0); cbn [andb] in *.
    + open_state s. fields. rewrite H. fields.
      unfold timerAfter.
      destruct (u32 (millisEnd p - DEBOUNCE_TIME) >=? millisEdge p);
        reflexivity.
    + apply close_start_timer.
  - apply close_start_timer.
Qed.

Lemma count_app f l1 l2 : count f (l1 ++ l2) = (count f l1 + count f l2)%nat.
Proof. unfold count. now rewrite filter_app, length_app. Qed.

Lemma count_repeat_Clock f n :
  f Clock = false -> count f (repeat Clock n) = 0%nat.
Proof.
  intros H. unfold count. induction n as [|n IH]; cbn; [reflexivity|].
  now rewrite H.
Qed.

(** With the handler kept out of the call: a press of the transport
    button taken while stopped sets
    [started], sends exactly one message, a Start and no Clock, raises the
    running indicator and leaves the tick counter at 0.  In every run of the
    handler that follows, the messages are that Start and then the Clocks,
    and the counter found by invocation [n] is [n mod 24]: the first Clock
    is sent on counter 0.  (The handler runs after the call, not inside
    it.) *)
Theorem start_press_from_stopped (p : Poll) (s : State) :
  startPress p s = true ->
  started s = false ->
  let s' := doStartStopInput p s in
  started s' = true
  /\ midiOut s' = midiOut s ++ [Start]
  /\ count isStart (midiOut s') = S (count isStart (midiOut s))
  /\ count isClock (midiOut s') = count isClock (midiOut s)
  /\ runningLed s' = HIGH
  /\ currentTick s' = 0
  /\ (forall n,
        midiOut (ticks n s') = midiOut s ++ Start :: repeat Clock n
        /\ count isStart (midiOut (ticks n s')) = S (count isStart (midiOut s))
        /\ currentTick (ticks n s') = Z.of_nat n mod 24).
Proof.
  intros Hp Hs. cbv zeta.
  rewrite (doStartStopInput_start p s Hp Hs).
  set (s' := set_lastStartDebounceTime _ _).
  assert (A : started s' = true) by (subst s'; open_state s; reflexivity).
  assert (M : midiOut s' = midiOut s ++ [Start])
    by (subst s'; open_state s; reflexivity).
  assert (L : runningLed s' = HIGH) by (subst s'; open_state s; reflexivity).
  assert (C : currentTick s' = 0) by (subst s'; open_state s; reflexivity).
  repeat split; try assumption.
  - rewrite M, count_app. cbn. lia.
  - rewrite M, count_app. cbn. lia.
  - rewrite ticks_midiOut_running, M by exact A.
    now rewrite <- app_assoc.
  - rewrite ticks_midiOut_running, M by exact A.
    rewrite !count_app, count_repeat_Clock by reflexivity. cbn. lia.
  - rewrite ticks_currentTick, C by (rewrite C; lia). reflexivity.
Qed.

Lemma start_press_from_stopped_witness :
  let s' := doStartStopInput (mkPoll LOW 100 100 100000) (initial HIGH HIGH) in
  midiOut s' = [Start] /\ currentTick s' = 0 /\ runningLed s' = HIGH.
Proof.
  destruct (start_press_from_stopped (mkPoll LOW 100 100 100000)
              (initial HIGH HIGH))
    as (_ & M & _ & _ & L & C & _); [reflexivity|reflexivity|].
  cbv zeta. auto.
Defined.

(** C5.  A press of the transport button taken while running clears
    [started], sends exactly one Stop followed by exactly sixteen
    Control-Change 123 value 0 messages, on channels 1 to 16 in order, and
    lowers the running indicator.  Every later invocation of the handler
    still advances the tick counter by one modulo 24 and sends nothing.
    The counter is taken in [[0, 24)], as it is in every reachable state. *)
Theorem stop_press_from_running (p : Poll) (s : State) :
  startPress p s = true ->
  started s = true ->
  0 <= currentTick s < 24 ->
  let s' := doStartStopInput p s in
  started s' = false
  /\ midiOut s' = midiOut s ++ stopMessages
  /\ stopMessages =
       Stop :: map (ControlChange 123 0)
                 [1; 2; 3; 4; 5; 6; 7; 8; 9; 10; 11; 12; 13; 14; 15; 16]
  /\ count isStop stopMessages = 1%nat
  /\ count isControlChange stopMessages = 16%nat
  /\ length stopMessages = 17%nat
  /\ runningLed s' = LOW
  /\ (forall n,
        midiOut (ticks n s') = midiOut s'
        /\ currentTick (ticks n s') = (currentTick s + Z.of_nat n) mod 24
        /\ currentTick (ticks (S n) s')
           = (currentTick (ticks n s') + 1) mod 24).
Proof.
  intros Hp Hs Hc. cbv zeta.
  rewrite (doStartStopInput_stop p s Hp Hs).
  set (s' := set_lastStartDebounceTime _ _).
  assert (A : started s' = false) by (subst s'; open_state s; reflexivity).
  assert (M : midiOut s' = midiOut s ++ stopMessages)
    by (subst s'; open_state s; reflexivity).
  assert (L : runningLed s' = LOW) by (subst s'; open_state s; reflexivity).
  assert (C : currentTick s' = currentTick s)
    by (subst s'; open_state s; reflexivity).
  repeat split; try assumption; try reflexivity.
  - now apply ticks_midiOut_stopped.
  - rewrite ticks_currentTick, C by (rewrite C; exact Hc). reflexivity.
  - rewrite ticks_S. apply clockTick_advances.
    rewrite ticks_currentTick by (rewrite C; exact Hc).
    apply Z.mod_pos_bound. lia.
Qed.

Lemma stop_press_from_running_witness :
  let s := set_currentTick 7 (set_started true (initial HIGH HIGH)) in
  let s' := doStartStopInput (mkPoll LOW 100 100 100000) s in
  midiOut s' = stopMessages /\ currentTick (ticks 20 s') = 3.
Proof.
  destruct (stop_press_from_running (mkPoll LOW 100 100 100000)
              (set_currentTick 7 (set_started true (initial HIGH HIGH))))
    as (_ & M & _ & _ & _ & _ & _ & T);
    [reflexivity|reflexivity|simpl; lia|].
  cbv zeta. split; [exact M|]. destruct (T 20%nat) as (_ & C & _). exact C.
Defined.

(** ** The tick counter in the running sketch *)

Lemma doTapInput_frame p s s' :
  doTapInput p s = Some s' ->
  currentTick s' = currentTick s
  /\ started s' = started s
  /\ midiOut s' = midiOut s.
Proof.
  destruct (tapPress p s) eqn:Hp.
  - rewrite (doTapInput_press p s Hp).
    destruct (tapTempo _ _) as [s1|] eqn:Et; [|discriminate].
    cbn [bind]. intros [= <-].
    destruct (tapTempo_frame _ _ _ Et) as (C & A & M).
    destruct s1. open_state s. fields. auto.
  - unfold doTapInput.
    destruct (negb (pinLevel p =? lastTapState s)) eqn:Hne.
    + destruct (lastTapDebounceTime s =? 0) eqn:Hz.
      * unfold tapPress in Hp. rewrite Hne, Hz in Hp. cbn [andb] in Hp.
        open_state s. fields. rewrite Hp. fields.
        destruct (u32 (millisEnd p - DEBOUNCE_TIME) >=? millisEdge p);
          intros [= <-]; auto.
      * cbn [bind]. rewrite close_tap_timer. intros [= <-].
        open_state s. auto.
    + destruct ((lastTapTime s >? 0) && _); cbn [bind];
        rewrite close_tap_timer; intros [= <-]; open_state s; auto.
Qed.

Lemma doStartStopInput_currentTick p s :
  currentTick (doStartStopInput p s) = currentTick s
  \/ currentTick (doStartStopInput p s) = 0.
Proof.
  destruct (startPress p s) eqn:Hp.
  - destruct (started s) eqn:Hs.
    + left. rewrite (doStartStopInput_stop p s Hp Hs).
      open_state s. reflexivity.
    + right. rewrite (doStartStopInput_start p s Hp Hs).
      open_state s. reflexivity.
  - left. rewrite (doStartStopInput_no_press p s Hp).
    destruct (_ && _); open_state s; reflexivity.
Qed.

(** Whatever the buttons and the encoder do, the tick counter of the
    running sketch is in [[0, 24)]. *)
Lemma Reachable_currentTick s : Reachable s -> 0 <= currentTick s < 24.
Proof.
  induction 1 as [a b|s s' _ IH Hstep].
  - cbn. lia.
  - destruct Hstep as [s|p s|p s s' E|offset s s' _ E].
    + now apply clockTick_advances.
    + destruct (doStartStopInput_currentTick p s) as [-> | ->]; lia.
    + destruct (doTapInput_frame p s s' E) as (-> & _). exact IH.
    + destruct (changeTempo_clamps offset s) as (s1 & E1 & _ & _ & _ & C & _).
      rewrite E in E1. injection E1 as <-. rewrite C. exact IH.
Qed.

(** ** Debounce *)

Lemma timerAfter_inWindow T p :
  DEBOUNCE_TIME <= T -> inWindow T p -> timerAfter p T = T.
Proof.
  unfold inWindow, timerAfter, DEBOUNCE_TIME. intros HT [Hw Hm].
  rewrite u32_small by lia.
  destruct (Z.geb_spec (millisEnd p - 30) T); [lia|reflexivity].
Qed.

(** While the timer of the transport button runs, a poll inside the window
    changes nothing at all. *)
Lemma doStartStopInput_inWindow T p s :
  DEBOUNCE_TIME <= T -> lastStartDebounceTime s = T -> inWindow T p ->
  startPress p s = false /\ doStartStopInput p s = s.
Proof.
  intros HT Ht Hw.
  assert (Hz : (lastStartDebounceTime s =? 0) = false)
    by (apply Z.eqb_neq; unfold DEBOUNCE_TIME in HT; lia).
  assert (Hp : startPress p s = false)
    by (unfold startPress; rewrite Hz, andb_false_r; reflexivity).
  split; [exact Hp|].
  rewrite (doStartStopInput_no_press p s Hp), Hz, andb_false_r, Ht.
  rewrite (timerAfter_inWindow T p HT Hw).
  subst T. open_state s. reflexivity.
Qed.

Lemma pollStart_inWindow T ps s :
  DEBOUNCE_TIME <= T -> lastStartDebounceTime s = T ->
  Forall (inWindow T) ps ->
  pollStart ps s = (repeat false (length ps), s).
Proof.
  intros HT Ht Hw. induction Hw as [|p ps Hp _ IH]; [reflexivity|].
  destruct (doStartStopInput_inWindow T p s HT Ht Hp) as [Hn Hs].
  cbn [pollStart length repeat]. rewrite Hs, IH, Hn. reflexivity.
Qed.

(** The same for the tap button, whose idle branch may still clear the tap
    history: no press, no fault, and neither the timer nor the tempo
    moves. *)
Lemma doTapInput_inWindow T p s :
  DEBOUNCE_TIME <= T -> lastTapDebounceTime s = T -> inWindow T p ->
  tapPress p s = false
  /\ exists s',
       doTapInput p s = Some s'
       /\ lastTapDebounceTime s' = T
       /\ tempo s' = tempo s
       /\ timerPeriod s' = timerPeriod s.
Proof.
  intros HT Ht Hw.
  assert (Hz : (lastTapDebounceTime s =? 0) = false)
    by (apply Z.eqb_neq; unfold DEBOUNCE_TIME in HT; lia).
  split; [unfold tapPress; rewrite Hz, andb_false_r; reflexivity|].
  pose proof (timerAfter_inWindow T p HT Hw) as Hk.
  unfold doTapInput. rewrite Hz.
  destruct (negb (pinLevel p =? lastTapState s)).
  - cbn [bind]. rewrite close_tap_timer, Ht, Hk.
    eexists. split; [reflexivity|]. open_state s. auto.
  - destruct ((lastTapTime s >? 0) && _); cbn [bind];
      rewrite close_tap_timer; eexists; (split; [reflexivity|]);
      open_state s; fields; rewrite Ht, Hk; auto.
Qed.

Lemma pollTap_inWindow T ps s :
  DEBOUNCE_TIME <= T -> lastTapDebounceTime s = T ->
  Forall (inWindow T) ps ->
  exists s',
    pollTap ps s = Some (repeat false (length ps), s')
    /\ lastTapDebounceTime s' = T
    /\ tempo s' = tempo s
    /\ timerPeriod s' = timerPeriod s.
Proof.
  intros HT Ht Hw. revert s Ht.
  induction Hw as [|p ps Hp _ IH]; intros s Ht.
  - exists s. cbn. auto.
  - destruct (doTapInput_inWindow T p s HT Ht Hp)
      as (Hn & s1 & E1 & T1 & B1 & P1).
    destruct (IH s1 T1) as (s' & E' & T' & B' & P').
    exists s'. cbn [pollTap length repeat].
    rewrite E1. cbn [bind]. rewrite E'. cbn [bind fst snd]. rewrite Hn.
    repeat split; congruence.
Qed.


(** A press stamped at least [DEBOUNCE_TIME] milliseconds after reset,
    followed by any polls inside its window: the transport toggles once, at
    the press, and no later poll of the window is a press. *)
Lemma start_press_then_window p0 ps s :
  startPress p0 s = true ->
  DEBOUNCE_TIME <= millisEdge p0 ->
  Forall (inWindow (millisEdge p0)) (p0 :: ps) ->
  pollStart (p0 :: ps) s
  = (true :: repeat false (length ps), doStartStopInput p0 s)
  /\ count isTransport (midiOut (doStartStopInput p0 s))
     = S (count isTransport (midiOut s)).
Proof.
  intros Hp HT Hw. inversion Hw as [|? ? Hw0 Hrest]; subst.
  pose proof (timerAfter_inWindow _ p0 HT Hw0) as Hk.
  assert (E1 : lastStartDebounceTime (doStartStopInput p0 s) = millisEdge p0
               /\ count isTransport (midiOut (doStartStopInput p0 s))
                  = S (count isTransport (midiOut s))).
  { destruct (started s) eqn:Est.
    - rewrite (doStartStopInput_stop p0 s Hp Est), Hk.
      open_state s. fields. split; [reflexivity|].
      rewrite count_app. cbn. lia.
    - rewrite (doStartStopInput_start p0 s Hp Est), Hk.
      open_state s. fields. split; [reflexivity|].
      rewrite count_app. cbn. lia. }
  destruct E1 as [E1 C1]. split; [|exact C1].
  cbn [pollStart].
  rewrite (pollStart_inWindow _ ps _ HT E1 Hrest), Hp. reflexivity.
Qed.

Lemma tap_press_then_window p0 ps s s1 :
  tapPress p0 s = true ->
  doTapInput p0 s = Some s1 ->
  DEBOUNCE_TIME <= millisEdge p0 ->
  Forall (inWindow (millisEdge p0)) (p0 :: ps) ->
  exists s',
    pollTap (p0 :: ps) s = Some (true :: repeat false (length ps), s')
    /\ tempo s' = tempo s1
    /\ timerPeriod s' = timerPeriod s1.
Proof.
  intros Hp E HT Hw. inversion Hw as [|? ? Hw0 Hrest]; subst.
  pose proof (timerAfter_inWindow _ p0 HT Hw0) as Hk.
  assert (E1 : lastTapDebounceTime s1 = millisEdge p0).
  { rewrite (doTapInput_press p0 s Hp) in E.
    destruct (tapTempo _ _) as [s0|] eqn:Et; [|discriminate E].
    cbn [bind] in E. injection E as <-.
    destruct (tapTempo_debounce _ _ _ Et) as [D _].
    assert (D' : lastTapDebounceTime s0 = millisEdge p0)
      by (rewrite D; open_state s; reflexivity).
    rewrite D', Hk. open_state s0. reflexivity. }
  destruct (pollTap_inWindow _ ps s1 HT E1 Hrest) as (s' & E' & _ & B & P).
  exists s'. cbn [pollTap]. rewrite E. cbn [bind]. rewrite E'.
  cbn [bind fst snd]. rewrite Hp. auto.
Qed.

(** A jitter 0,1,0,1,0 whose first sample is stamped at least
    [DEBOUNCE_TIME] milliseconds after reset, on a released button with an
    idle timer: one press, at the first sample, on either button. *)
Lemma jitter_one_press_after_boot (p0 p1 p2 p3 p4 : Poll) (s : State) :
  pinLevel p0 = LOW -> pinLevel p1 = HIGH -> pinLevel p2 = LOW ->
  pinLevel p3 = HIGH -> pinLevel p4 = LOW ->
  DEBOUNCE_TIME <= millisEdge p0 ->
  Forall (inWindow (millisEdge p0)) [p0; p1; p2; p3; p4] ->
  (lastStartState s = HIGH -> lastStartDebounceTime s = 0 ->
   fst (pollStart [p0; p1; p2; p3; p4] s)
   = [true; false; false; false; false]
   /\ count isTransport (midiOut (snd (pollStart [p0; p1; p2; p3; p4] s)))
      = S (count isTransport (midiOut s)))
  /\ (lastTapState s = HIGH -> lastTapDebounceTime s = 0 ->
      lastTapTime s = 0 ->
      exists s',
        pollTap [p0; p1; p2; p3; p4] s
        = Some ([true; false; false; false; false], s')
        /\ tempo s' = tempo s).
Proof.
  intros L0 L1 L2 L3 L4 HT Hw. split.
  - intros Hs Hd.
    assert (Hp : startPress p0 s = true)
      by (unfold startPress; rewrite L0, Hs, Hd; reflexivity).
    destruct (start_press_then_window p0 [p1; p2; p3; p4] s Hp HT Hw)
      as [E C].
    rewrite E. split; [reflexivity|exact C].
  - intros Hs Hd Hl.
    assert (Hp : tapPress p0 s = true)
      by (unfold tapPress; rewrite L0, Hs, Hd; reflexivity).
    assert (E : exists s1, doTapInput p0 s = Some s1 /\ tempo s1 = tempo s).
    { rewrite (doTapInput_press p0 s Hp).
      rewrite tapTempo_first by (open_state s; exact Hl).
      cbn [bind]. eexists. split; [reflexivity|].
      open_state s. reflexivity. }
    destruct E as (s1 & E & B1).
    destruct (tap_press_then_window p0 [p1; p2; p3; p4] s s1 Hp E HT Hw)
      as (s' & E' & B & _).
    exists s'. split; [exact E'|congruence].
Qed.

(** Before [millis()] reaches [DEBOUNCE_TIME] the subtraction of the closing
    test wraps, and the timer is cleared in the poll that started it. *)
Lemma timerAfter_before_debounce_time p t :
  0 <= millisEnd p < DEBOUNCE_TIME -> 0 <= t <= 2 ^ 32 - DEBOUNCE_TIME ->
  timerAfter p t = 0.
Proof.
  unfold timerAfter, DEBOUNCE_TIME. intros Hm Ht.
  rewrite u32_sub_wrap by lia.
  destruct (Z.geb_spec (millisEnd p - 30 + 2 ^ 32) t); [reflexivity|lia].
Qed.

(** Likewise the expiry test wraps while [micros()] is below the expiry
    window: the history of a tap is cleared by the first idle poll. *)
Lemma tapExpired_before_window p s :
  0 < lastTapTime s <= microsNow p ->
  microsNow p < tapExpireTime s <= 2 ^ 32 ->
  tapExpired p s = true.
Proof.
  unfold tapExpired. intros Hl Hn.
  rewrite u32_sub_wrap by lia.
  destruct (Z.gtb_spec (lastTapTime s) 0); [|lia].
  destruct (Z.geb_spec (microsNow p - tapExpireTime s + 2 ^ 32)
              (lastTapTime s)); [reflexivity|lia].
Qed.

(** C10.  The jitter 0,1,0,1,0 polled at [millis()] = 4, 8, 12, 16, 20
    after reset, on released buttons with idle timers.  All five samples
    lie within one [DEBOUNCE_TIME] of the first, yet the first, third and
    fifth are each taken as a press: the transport sends Start, Stop with
    its sixteen Control-Changes, and Start again, and [tapTempo] is called
    three times, the last two taking the 8 ms between presses for a tap
    interval (tempo 7500). *)
Theorem jitter_right_after_reset_presses_three_times :
  let at_ms level ms := mkPoll level ms ms (ms * 1000) in
  let jitter :=
    [at_ms LOW 4; at_ms HIGH 8; at_ms LOW 12; at_ms HIGH 16; at_ms LOW 20] in
  let s0 := initial HIGH HIGH in
  Forall (fun p => 4 <= millisEnd p < 4 + DEBOUNCE_TIME) jitter
  /\ fst (pollStart jitter s0) = [true; false; true; false; true]
  /\ midiOut (snd (pollStart jitter s0)) = Start :: stopMessages ++ [Start]
  /\ count isTransport (midiOut (snd (pollStart jitter s0))) = 3%nat
  /\ option_map fst (pollTap jitter s0)
     = Some [true; false; true; false; true]
  /\ option_map (fun r => tempo (snd r)) (pollTap jitter s0) = Some 7500.
Proof.
  cbv zeta. split.
  - repeat constructor; cbn; unfold DEBOUNCE_TIME; lia.
  - repeat split; vm_compute; reflexivity.
Qed.

(** * The sketch as a whole *)

(** ** What each function leaves alone *)

Lemma views_ext a b :
  transportView a = transportView b -> tapView a = tapView b ->
  encoderCount a = encoderCount b -> a = b.
Proof.
  destruct a, b. unfold transportView, tapView. cbn.
  intros [= -> -> -> -> -> -> ->] [= -> -> -> -> -> ->] ->. reflexivity.
Qed.

Lemma periodOk_ext a b :
  tempo a = tempo b -> timerPeriod a = timerPeriod b ->
  periodOk a -> periodOk b.
Proof. unfold periodOk, calcTempoMicros. intros -> ->. auto. Qed.

(** [changeTempo], in one assignment. *)
Lemma changeTempo_eq offset s :
  changeTempo offset s =
    Some (set_encoderCount 0
            (set_timerPeriod
               (60000000 / (clamp (s16 (tempo s + offset)) * 24))
               (set_tempo (clamp (s16 (tempo s + offset))) s))).
Proof.
  unfold changeTempo.
  set (t := s16 (tempo s + offset)).
  assert (Hc : TEMPO_MIN <= clamp t <= TEMPO_MAX) by apply clamp_range.
  assert (E : (let s0 := set_tempo t s in
               if tempo s0 <? TEMPO_MIN then set_tempo TEMPO_MIN s0
               else if tempo s0 >? TEMPO_MAX then set_tempo TEMPO_MAX s0
               else s0) = set_tempo (clamp t) s).
  { open_state s. fields. cbv zeta. fields.
    unfold clamp, TEMPO_MIN, TEMPO_MAX.
    destruct (Z.ltb_spec t 40); [f_equal; lia|].
    destruct (Z.gtb_spec t 300); f_equal; lia. }
  cbv zeta in E |- *. rewrite E.
  rewrite calcTempoMicros_in_range
    by (open_state s; fields; exact Hc).
  open_state s. reflexivity.
Qed.

(** A call of [tapTempo] that returns touches only the estimator, the
    tempo and the period, and the period is the one of the tempo it
    leaves. *)
Lemma tapTempo_writes us s s' :
  tapTempo us s = Some s' ->
  transportView s' = transportView s
  /\ encoderCount s' = encoderCount s
  /\ lastTapDebounceTime s' = lastTapDebounceTime s
  /\ lastTapState s' = lastTapState s
  /\ (periodOk s -> periodOk s').
Proof.
  open_state s. unfold tapTempo. fields.
  destruct (lt =? 0).
  - intros [= <-]. repeat split. apply periodOk_ext; reflexivity.
  - destruct (u32 (us - lt) =? 0); [discriminate|].
    destruct (calcTempoMicros _) as [q|] eqn:Eq; fields; [|discriminate].
    intros [= <-]. repeat split. intros _.
    unfold periodOk, calcTempoMicros in Eq |- *. fields. exact Eq.
Qed.

Lemma doTapInput_writes p s s' :
  doTapInput p s = Some s' ->
  transportView s' = transportView s
  /\ encoderCount s' = encoderCount s
  /\ (periodOk s -> periodOk s').
Proof.
  destruct (tapPress p s) eqn:Hp.
  - rewrite (doTapInput_press p s Hp).
    destruct (tapTempo _ _) as [s1|] eqn:Et; [|discriminate].
    cbn [bind]. intros [= <-].
    destruct (tapTempo_writes _ _ _ Et) as (V & C & _ & _ & K).
    repeat split.
    + transitivity (transportView s1); [destruct s1; reflexivity|].
      rewrite V. open_state s. reflexivity.
    + transitivity (encoderCount s1); [destruct s1; reflexivity|].
      rewrite C. open_state s. reflexivity.
    + intros H.
      assert (K1 : periodOk s1)
        by (apply K; revert H; apply periodOk_ext; open_state s; reflexivity).
      revert K1. apply periodOk_ext; destruct s1; reflexivity.
  - unfold tapPress in Hp. unfold doTapInput.
    destruct (negb (pinLevel p =? lastTapState s)); cbn [andb] in Hp.
    + destruct (lastTapDebounceTime s =? 0); cbn [andb] in Hp.
      * open_state s. fields. rewrite Hp. fields.
        destruct (u32 (millisEnd p - DEBOUNCE_TIME) >=? millisEdge p);
          intros [= <-]; repeat split; apply periodOk_ext; reflexivity.
      * cbn [bind]. rewrite close_tap_timer. intros [= <-].
        open_state s. repeat split. apply periodOk_ext; reflexivity.
    + destruct ((lastTapTime s >? 0) && _); cbn [bind];
        rewrite close_tap_timer; intros [= <-]; open_state s;
        repeat split; apply periodOk_ext; reflexivity.
Qed.

Lemma doStartStopInput_writes p s :
  tapView (doStartStopInput p s) = tapView s
  /\ encoderCount (doStartStopInput p s) = encoderCount s
  /\ tempoLed (doStartStopInput p s) = tempoLed s.
Proof.
  destruct (startPress p s) eqn:Hp.
  - destruct (started s) eqn:Hs.
    + rewrite (doStartStopInput_stop p s Hp Hs). open_state s. auto.
    + rewrite (doStartStopInput_start p s Hp Hs). open_state s. auto.
  - rewrite (doStartStopInput_no_press p s Hp).
    destruct (_ && _); open_state s; auto.
Qed.

Lemma clockTick_writes s :
  tapView (clockTick s) = tapView s
  /\ encoderCount (clockTick s) = encoderCount s
  /\ runningLed (clockTick s) = runningLed s
  /\ lastStartState (clockTick s) = lastStartState s
  /\ lastStartDebounceTime (clockTick s) = lastStartDebounceTime s.
Proof. rewrite clockTick_eq. open_state s. repeat split. Qed.

(** The transport poll, by cases: a start, a stop, or no press. *)
Lemma doStartStopInput_cases p s :
  let s' := doStartStopInput p s in
  (startPress p s = true /\ started s = false
   /\ s' = set_lastStartDebounceTime (lastStartDebounceTime s')
             (set_currentTick 0
                (set_runningLed HIGH
                   (set_midiOut (midiOut s ++ [Start])
                      (set_started true (set_lastStartState LOW s))))))
  \/ (startPress p s = true /\ started s = true
      /\ s' = set_lastStartDebounceTime (lastStartDebounceTime s')
                (set_runningLed LOW
                   (set_midiOut (midiOut s ++ stopMessages)
                      (set_started false (set_lastStartState LOW s)))))
  \/ (startPress p s = false
      /\ s' = set_lastStartDebounceTime (lastStartDebounceTime s')
                (set_lastStartState (lastStartState s') s)).
Proof.
  cbv zeta. destruct (startPress p s) eqn:Hp.
  - destruct (started s) eqn:Hs.
    + right. left. rewrite (doStartStopInput_stop p s Hp Hs).
      open_state s. auto.
    + left. rewrite (doStartStopInput_start p s Hp Hs).
      open_state s. auto.
  - right. right. rewrite (doStartStopInput_no_press p s Hp).
    destruct (_ && _); open_state s; auto.
Qed.


(** The encoder block either only reads the encoder or also steps the
    tempo by one. *)
Lemma loopEncoder_cases moved k k1 :
  loopEncoder moved k = Some k1 ->
  globals k1 = tempoEncoder_read moved (globals k)
  \/ exists offset,
       (offset = 1 \/ offset = -1)
       /\ changeTempo offset (tempoEncoder_read moved (globals k))
          = Some (globals k1).
Proof.
  unfold loopEncoder.
  destruct (negb _); [|intros [= <-]; left; reflexivity].
  cbv zeta.
  destruct (_ >? 3).
  - destruct (changeTempo 1 _) as [s1|] eqn:E; [|discriminate].
    cbn [bind]. intros [= <-]. right. exists 1. auto.
  - destruct (_ <? -3).
    + destruct (changeTempo (-1) _) as [s1|] eqn:E; [|discriminate].
      cbn [bind]. intros [= <-]. right. exists (-1). auto.
    + intros [= <-]. left. reflexivity.
Qed.

Lemma loopEncoder_writes moved k k1 :
  loopEncoder moved k = Some k1 ->
  transportView (globals k1) = transportView (globals k)
  /\ lastTapDebounceTime (globals k1) = lastTapDebounceTime (globals k)
  /\ lastTapState (globals k1) = lastTapState (globals k)
  /\ lastTapTime (globals k1) = lastTapTime (globals k)
  /\ tapExpireTime (globals k1) = tapExpireTime (globals k)
  /\ (periodOk (globals k) -> periodOk (globals k1)).
Proof.
  intros H. destruct (loopEncoder_cases moved k k1 H) as [E|(off & _ & E)].
  - rewrite E. destruct k as [s pos]. cbn [globals]. unfold tempoEncoder_read.
    open_state s. repeat split. apply periodOk_ext; reflexivity.
  - rewrite changeTempo_eq in E. injection E as <-.
    destruct k as [s pos]. cbn [globals]. unfold tempoEncoder_read.
    open_state s. repeat split. intros _.
    unfold periodOk. apply calcTempoMicros_in_range. apply clamp_range.
Qed.

(** ** The handler inside the transport poll *)

(** What [n] invocations of the handler write. *)
Lemma ticks_effect n s :
  exists c l,
    c = currentTick (ticks n s)
    /\ (0 <= currentTick s < 24 -> 0 <= c < 24)
    /\ ticks n s =
         set_currentTick c
           (set_tempoLed l
              (set_midiOut
                 (midiOut s ++ (if started s then repeat Clock n else []))
                 s)).
Proof.
  revert s. induction n as [|n IH]; intros s.
  - exists (currentTick s), (tempoLed s).
    split; [reflexivity|]. split; [auto|].
    cbn [ticks repeat]. open_state s. fields.
    destruct st; now rewrite app_nil_r.
  - destruct (IH (clockTick s)) as (c & l & V & R & E).
    exists c, l. split; [exact V|]. split.
    + intros H. apply R. now apply clockTick_advances.
    + cbn [ticks]. rewrite E, clockTick_eq. clear V. open_state s. fields.
      destruct st; cbn [repeat]; [|reflexivity].
      rewrite <- app_assoc. reflexivity.
Qed.

(** Let the handler fire on a state whose fields are at hand. *)
Ltac handler_fires :=
  repeat match goal with
    | |- context [ticks ?n (mkState ?a ?b ?c ?d ?e ?f ?g ?h ?i ?j ?k ?l ?m ?o)] =>
        let cc := fresh "c" in
        let ll := fresh "l" in
        let V := fresh "V" in
        let R := fresh "R" in
        destruct (ticks_effect n (mkState a b c d e f g h i j k l m o))
          as (cc & ll & V & R & ->);
        fields
    end.

(** With the handler kept out, the poll is [doStartStopInput]. *)
Lemma doStartStopInputWith_quiet p s :
  doStartStopInputWith quiet p s = doStartStopInput p s.
Proof.
  unfold doStartStopInputWith, doStartStopInput, quiet, allNotesOff.
  cbn [ticks]. reflexivity.
Qed.

(** The loop of line 148 while [started] is clear: the handler sends
    nothing between the messages. *)
Lemma fold_noteOff_stopped (irq : Schedule) (chs : list Z) s :
  started s = false ->
  exists c l,
    (0 <= currentTick s < 24 -> 0 <= c < 24)
    /\ fold_left
         (fun s i => ticks (irq (AfterNoteOff i)) (sendControlChange 123 0 i s))
         chs s
       = set_currentTick c
           (set_tempoLed l
              (set_midiOut (midiOut s ++ map (ControlChange 123 0) chs) s)).
Proof.
  revert s. induction chs as [|i chs IH]; intros s Hs; cbn [fold_left map].
  - exists (currentTick s), (tempoLed s). split; [auto|].
    rewrite app_nil_r. open_state s. reflexivity.
  - destruct (ticks_effect (irq (AfterNoteOff i)) (sendControlChange 123 0 i s))
      as (c & l & _ & R & E).
    rewrite E. clear E.
    match goal with |- context [fold_left _ chs ?x] =>
      destruct (IH x) as (c' & l' & R' & E') end.
    + open_state s. exact Hs.
    + exists c', l'. split.
      * intros H. apply R'. revert R H. open_state s. fields. auto.
      * rewrite E'. open_state s. fields. subst st.
        rewrite app_nil_r, <- app_assoc. reflexivity.
Qed.

Lemma repeat_Clock_add a b :
  repeat Clock a ++ repeat Clock b = repeat Clock (a + b).
Proof. symmetry. apply repeat_app. Qed.

(** The transport poll with the handler let in, by cases.  A start: the
    Clocks of the invocations after line 140 go out before the Start, those
    after line 143 behind it.  A stop: the handler is heard only before
    line 140.  No press: the handler is heard while the edge is recorded, if
    the transport runs. *)
Lemma doStartStopInputWith_cases irq p s :
  let s' := doStartStopInputWith irq p s in
  tapView s' = tapView s
  /\ encoderCount s' = encoderCount s
  /\ (0 <= currentTick s < 24 -> 0 <= currentTick s' < 24)
  /\ ((startPress p s = true /\ started s = false
       /\ started s' = true /\ runningLed s' = HIGH
       /\ currentTick s' = Z.of_nat (irq AfterReset) mod 24
       /\ midiOut s' =
            midiOut s ++ repeat Clock (irq AfterToggle)
            ++ Start :: repeat Clock (irq AfterStart + irq AfterLedHigh
                                      + irq AfterReset))
      \/ (startPress p s = true /\ started s = true
          /\ started s' = false /\ runningLed s' = LOW
          /\ midiOut s' =
               midiOut s ++ repeat Clock (irq AfterStamp + irq AfterLevel)
               ++ stopMessages)
      \/ (startPress p s = false
          /\ started s' = started s /\ runningLed s' = runningLed s
          /\ exists n,
               midiOut s' =
                 midiOut s ++ (if started s then repeat Clock n else []))).
Proof.
  cbv zeta. destruct (startPress p s) eqn:Hp.
  - destruct (startPress_guards p s Hp) as (Hne & Hidle & Hlow).
    clear Hp. unfold doStartStopInputWith. rewrite Hne, Hidle, Hlow.
    open_state s. destruct st; fields;
      repeat (progress (handler_fires; cbn [negb LOW Z.eqb]; fields)).
    + match goal with |- context [fold_left ?f channels ?x] =>
        destruct (fold_noteOff_stopped irq channels x) as (c' & l' & R' & ->);
          [reflexivity|]
      end.
      fields. handler_fires.
      destruct (u32 (millisEnd p - DEBOUNCE_TIME) >=? millisEdge p); fields;
        (split; [reflexivity|]); (split; [reflexivity|]);
        (split; [intros; auto 10|]); right; left;
        repeat (split; [reflexivity|]);
        rewrite !app_nil_r, <- !app_assoc, <- repeat_Clock_add;
        unfold stopMessages; rewrite <- !app_assoc; reflexivity.
    + destruct (u32 (millisEnd p - DEBOUNCE_TIME) >=? millisEdge p); fields;
        (split; [reflexivity|]); (split; [reflexivity|]);
        (split; [intros; auto 10 with zarith|]); left;
        repeat (split; [reflexivity|]);
        (split; [rewrite V4, ticks_currentTick by (fields; lia); reflexivity|]);
        rewrite !app_nil_r, <- !repeat_Clock_add, <- !app_assoc;
        reflexivity.
  - unfold startPress in Hp. unfold doStartStopInputWith.
    destruct (negb (pinLevel p =? lastStartState s)); cbn [andb] in Hp.
    + destruct (lastStartDebounceTime s =? 0); cbn [andb] in Hp.
      * open_state s. fields. handler_fires. rewrite Hp. fields.
        destruct (u32 (millisEnd p - DEBOUNCE_TIME) >=? millisEdge p); fields;
          (split; [reflexivity|]); (split; [reflexivity|]);
          (split; [intros; auto|]); right; right;
          repeat (split; [reflexivity|]);
          exists (irq AfterStamp + irq AfterLevel)%nat;
          destruct st; rewrite <- ?app_assoc, ?repeat_Clock_add, ?app_nil_r;
          reflexivity.
      * rewrite close_start_timer. open_state s. fields.
        (split; [reflexivity|]); (split; [reflexivity|]); (split; [auto|]).
        right; right. repeat (split; [reflexivity|]).
        exists O. destruct st; now rewrite app_nil_r.
    + rewrite close_start_timer. open_state s. fields.
      (split; [reflexivity|]); (split; [reflexivity|]); (split; [auto|]).
      right; right. repeat (split; [reflexivity|]).
      exists O. destruct st; now rewrite app_nil_r.
Qed.

(** C4.  A press of the transport button taken while stopped does not
    keep the handler out between line 140, where [started] is set, and
    line 145, where the tick counter is reset.  With the handler firing
    once right after line 140 the call sends a Clock and then the Start;
    firing once right after line 143 it sends the Start and then a Clock,
    both before the counter is reset.  The call still ends with [started]
    set, the running indicator high and the counter at 0, so from then on
    the stream is one Clock ahead of the counter: [n] invocations later
    [n + 1] Clocks have followed the Start and the counter stands at
    [n mod 24].  With the handler kept out, the call is
    [doStartStopInput] and sends the Start alone. *)
Theorem start_press_lets_a_clock_out_before_the_reset
  (p : Poll) (s : State) :
  startPress p s = true ->
  started s = false ->
  (let s' := doStartStopInputWith (once AfterToggle) p s in
   started s' = true /\ runningLed s' = HIGH /\ currentTick s' = 0
   /\ midiOut s' = midiOut s ++ [Clock; Start])
  /\ (let s' := doStartStopInputWith (once AfterStart) p s in
      started s' = true /\ runningLed s' = HIGH /\ currentTick s' = 0
      /\ midiOut s' = midiOut s ++ [Start; Clock]
      /\ forall n,
           midiOut (ticks n s') = midiOut s ++ Start :: repeat Clock (S n)
           /\ currentTick (ticks n s') = Z.of_nat n mod 24)
  /\ (let s' := doStartStopInputWith quiet p s in
      s' = doStartStopInput p s /\ midiOut s' = midiOut s ++ [Start]).
Proof.
  intros Hp Hs. cbv zeta.
  assert (X : forall irq,
             let s' := doStartStopInputWith irq p s in
             started s' = true /\ runningLed s' = HIGH
             /\ currentTick s' = Z.of_nat (irq AfterReset) mod 24
             /\ midiOut s' =
                  midiOut s ++ repeat Clock (irq AfterToggle)
                  ++ Start :: repeat Clock (irq AfterStart + irq AfterLedHigh
                                            + irq AfterReset)).
  { intros irq.
    destruct (doStartStopInputWith_cases irq p s)
      as (_ & _ & _ & [(_ & _ & A)|[(_ & B & _)|(B & _)]]);
      [exact A|congruence|congruence]. }
  split; [|split].
  - destruct (X (once AfterToggle)) as (A & L & C & M).
    repeat split; assumption.
  - destruct (X (once AfterStart)) as (A & L & C & M).
    cbn in C, M. repeat split; try assumption.
    + rewrite ticks_midiOut_running, M by exact A.
      rewrite <- app_assoc. reflexivity.
    + rewrite ticks_currentTick, C by (rewrite C; lia). reflexivity.
  - rewrite doStartStopInputWith_quiet. split; [reflexivity|].
    rewrite (doStartStopInput_start p s Hp Hs). open_state s. reflexivity.
Qed.

Lemma start_press_lets_a_clock_out_before_the_reset_witness :
  let s := ticks 7 (initial HIGH HIGH) in
  let p := mkPoll LOW 100 100 100000 in
  currentTick s = 7
  /\ midiOut s = []
  /\ midiOut (doStartStopInputWith (once AfterToggle) p s) = [Clock; Start]
  /\ midiOut (doStartStopInputWith (once AfterStart) p s) = [Start; Clock]
  /\ midiOut (ticks 24 (doStartStopInputWith (once AfterStart) p s))
     = Start :: repeat Clock 25
  /\ currentTick (ticks 24 (doStartStopInputWith (once AfterStart) p s)) = 0.
Proof.
  cbv zeta.
  destruct (start_press_lets_a_clock_out_before_the_reset
              (mkPoll LOW 100 100 100000) (ticks 7 (initial HIGH HIGH)))
    as ((_ & _ & _ & M1) & (_ & _ & _ & M2 & T) & _);
    [reflexivity|reflexivity|].
  destruct (T 24%nat) as [M3 C3].
  split; [reflexivity|]. split; [reflexivity|].
  split; [exact M1|]. split; [exact M2|]. split; [exact M3|exact C3].
Defined.

(** ** Invariants of the sketch at work *)










(** X2.  Timer1 holds the period of the tempo wherever the code gets to
    program it.  [setup] leaves it so; the handler keeps it so;
    [changeTempo] always returns and leaves it so; a second tap that
    returns leaves it so; and a pass of [loop] whose tap poll returns keeps
    it so, wherever the handler fires.  Nothing is said of a pass whose tap
    poll divides by zero. *)
Theorem timer_period_follows_tempo :
  (forall tapPin startPin, periodOk (initial tapPin startPin))
  /\ (forall s, periodOk s -> periodOk (clockTick s))
  /\ (forall offset s,
        exists s', changeTempo offset s = Some s' /\ periodOk s')
  /\ (forall us s s',
        lastTapTime s <> 0 -> tapTempo us s = Some s' -> periodOk s')
  /\ (forall irq io k k1 s2,
        periodOk (globals k) ->
        loopEncoder (encoderMoved io) k = Some k1 ->
        doTapInput (tapPoll io) (globals k1) = Some s2 ->
        periodOk (doStartStopInputWith irq (startPoll io) s2)).
Proof.
  split; [|split; [|split; [|split]]].
  - intros a b. reflexivity.
  - intros s H. destruct (clockTick_writes s) as (V & _).
    unfold tapView in V. injection V as _ _ _ _ Vt Vp.
    apply (periodOk_ext s); auto.
  - intros offset s. rewrite changeTempo_eq. eexists. split; [reflexivity|].
    unfold periodOk. open_state s. fields.
    apply calcTempoMicros_in_range. apply clamp_range.
  - intros us s s' Hl. open_state s. unfold tapTempo. fields.
    destruct (Z.eqb_spec lt 0) as [E|_]; [contradiction|].
    destruct (u32 (us - lt) =? 0); [discriminate|].
    destruct (calcTempoMicros _) as [q|] eqn:Eq; fields; [|discriminate].
    intros [= <-]. unfold periodOk, calcTempoMicros in Eq |- *. fields.
    exact Eq.
  - intros irq io k k1 s2 Hk Ee Et.
    destruct (loopEncoder_writes _ _ _ Ee) as (_ & _ & _ & _ & _ & K1).
    destruct (doTapInput_writes _ _ _ Et) as (_ & _ & K2).
    destruct (doStartStopInputWith_cases irq (startPoll io) s2) as (V & _).
    cbv zeta in V. unfold tapView in V. injection V as _ _ _ _ Vt Vp.
    apply (periodOk_ext s2); auto.
Qed.

Lemma timer_period_follows_tempo_witness :
  exists s',
    changeTempo 1 (initial HIGH HIGH) = Some s'
    /\ calcTempoMicros s' = Some (timerPeriod s').
Proof.
  destruct timer_period_follows_tempo as (_ & _ & C & _).
  exact (C 1 (initial HIGH HIGH)).
Defined.











(** ** The display *)

Lemma index_digits_Some d v :
  index digits d = Some v ->
  0 <= d < 10 /\ decodeDigit (u8 v) = Some d.
Proof.
  unfold index. destruct (Z.ltb_spec d 0) as [|Hd]; [discriminate|].
  intros H.
  assert (Hn : (Z.to_nat d < length digits)%nat)
    by (apply nth_error_Some; congruence).
  cbn [length digits] in Hn.
  assert (C : d = 0 \/ d = 1 \/ d = 2 \/ d = 3 \/ d = 4 \/ d = 5 \/ d = 6
              \/ d = 7 \/ d = 8 \/ d = 9) by lia.
  split; [lia|].
  repeat (destruct C as [->|C]; [injection H as <-; reflexivity|]).
  subst d. injection H as <-. reflexivity.
Qed.

Lemma index_digits_in_range d :
  0 <= d < 10 -> exists v, index digits d = Some v.
Proof.
  intros H.
  assert (C : d = 0 \/ d = 1 \/ d = 2 \/ d = 3 \/ d = 4 \/ d = 5 \/ d = 6
              \/ d = 7 \/ d = 8 \/ d = 9) by lia.
  repeat (destruct C as [->|C]; [eexists; reflexivity|]).
  subst d. eexists. reflexivity.
Qed.

Lemma index_output_pins_Some i pin :
  index output_pins i = Some pin ->
  (i = 0 /\ pin = 9) \/ (i = 1 /\ pin = 10) \/ (i = 2 /\ pin = 8).
Proof.
  unfold index. destruct (Z.ltb_spec i 0) as [|Hi]; [discriminate|].
  intros H.
  assert (Hn : (Z.to_nat i < length output_pins)%nat)
    by (apply nth_error_Some; congruence).
  cbn [length output_pins] in Hn.
  assert (C : i = 0 \/ i = 1 \/ i = 2) by lia.
  destruct C as [->|[->| ->]]; injection H as <-; auto.
Qed.

Lemma shifted_showDigit seg pin rest :
  shifted (showDigit seg pin ++ rest) = u8 seg :: shifted rest.
Proof. reflexivity. Qed.

Lemma selected_showDigit seg pin rest :
  isDigitPin pin = true ->
  selected (showDigit seg pin ++ rest) = pin :: selected rest.
Proof.
  intros H. unfold selected, showDigit.
  cbn [flat_map app]. rewrite H.
  change (isDigitPin ENABLE_PIN) with false. reflexivity.
Qed.

Lemma multiplexed_showDigit seg pin rest :
  isDigitPin pin = true ->
  multiplexed None (showDigit seg pin ++ rest) = multiplexed None rest.
Proof.
  intros H. unfold showDigit. cbn [multiplexed app].
  rewrite H. change (isDigitPin ENABLE_PIN) with false.
  cbn. now rewrite Z.eqb_refl.
Qed.

(** What a run of the loop that comes to its end has done. *)
Lemma displayLoop_Done fuel : forall digit i evs,
  displayLoop fuel digit i = Done evs ->
  0 <= digit
  /\ readBack (shifted evs) = Some digit
  /\ selected evs
     = firstn (length (shifted evs)) (skipn (Z.to_nat i) output_pins)
  /\ (digit <> 0 -> 0 <= i < 3 /\ evs <> [])
  /\ (length (shifted evs) <= length (skipn (Z.to_nat i) output_pins))%nat
  /\ multiplexed None evs = true.
Proof.
  induction fuel as [|fuel IH]; intros digit i evs; cbn [displayLoop].
  - destruct (Z.eqb_spec digit 0) as [->|Hd]; [|discriminate].
    intros [= <-]. cbn. repeat split; try lia; contradiction.
  - destruct (Z.eqb_spec digit 0) as [->|Hd].
    + intros [= <-]. cbn. repeat split; try lia; contradiction.
    + destruct (index digits (Z.rem digit 10)) as [seg|] eqn:Es;
        [|discriminate].
      cbn [ofOption bindRun].
      destruct (index output_pins i) as [pin|] eqn:Ep; [|discriminate].
      cbn [ofOption bindRun].
      destruct (displayLoop fuel (Z.quot digit 10) (i + 1)) as [rest| |]
        eqn:Er; try discriminate.
      cbn [bindRun]. intros [= <-].
      destruct (IH _ _ _ Er) as (Hq & Hr & Hs & _ & Hl & Hm).
      destruct (index_digits_Some _ _ Es) as [Hrem Hdec].
      pose proof (Z.quot_rem' digit 10) as Hqr.
      change (DigitalWrite ENABLE_PIN HIGH :: _)
        with (showDigit seg pin ++ rest).
      assert (Hpin : isDigitPin pin = true
                     /\ skipn (Z.to_nat i) output_pins
                        = pin :: skipn (Z.to_nat (i + 1)) output_pins
                     /\ 0 <= i < 3).
      { destruct (index_output_pins_Some _ _ Ep)
          as [[-> ->]|[[-> ->]|[-> ->]]]; repeat split; lia. }
      destruct Hpin as (Hpin & Hskip & Hi).
      rewrite shifted_showDigit, selected_showDigit, multiplexed_showDigit
        by exact Hpin.
      cbn [readBack length]. rewrite Hdec, Hr, Hskip, Hs. cbn [bind firstn].
      split; [lia|]. split; [f_equal; lia|].
      repeat split; try lia; try discriminate; try exact Hm.
      cbn [length]. lia.
Qed.

(** The loop comes to its end on what fits the digit pins that are left. *)
Lemma displayLoop_runs fuel : forall digit i,
  0 <= i <= 3 -> 0 <= digit < 10 ^ (3 - i) -> (3 - i <= Z.of_nat fuel) ->
  exists evs, displayLoop fuel digit i = Done evs.
Proof.
  induction fuel as [|fuel IH]; intros digit i Hi Hd Hf; cbn [displayLoop].
  - assert (i = 3) by lia. subst i. change (10 ^ (3 - 3)) with 1 in Hd.
    destruct (Z.eqb_spec digit 0); [eexists; reflexivity|lia].
  - destruct (Z.eqb_spec digit 0) as [|Hn]; [eexists; reflexivity|].
    assert (Hrem : 0 <= Z.rem digit 10 < 10)
      by (apply Z.rem_bound_pos; lia).
    destruct (index_digits_in_range _ Hrem) as (seg & ->).
    cbn [ofOption bindRun].
    assert (Hq : Z.quot digit 10 = digit / 10)
      by (apply Z.quot_div_nonneg; lia).
    assert (Hq0 : 0 <= digit / 10) by (apply Z.div_pos; lia).
    assert (C : i = 0 \/ i = 1 \/ i = 2 \/ i = 3) by lia.
    destruct C as [->|[->|[->| ->]]].
    + change (10 ^ (3 - 0)) with 1000 in Hd.
      change (index output_pins 0) with (Some 9). cbn [ofOption bindRun].
      destruct (IH (Z.quot digit 10) (0 + 1)) as (rest & ->);
        [lia| |lia|eexists; reflexivity].
      change (10 ^ (3 - (0 + 1))) with 100. rewrite Hq.
      split; [exact Hq0|apply Z.div_lt_upper_bound; lia].
    + change (10 ^ (3 - 1)) with 100 in Hd.
      change (index output_pins 1) with (Some 10). cbn [ofOption bindRun].
      destruct (IH (Z.quot digit 10) (1 + 1)) as (rest & ->);
        [lia| |lia|eexists; reflexivity].
      change (10 ^ (3 - (1 + 1))) with 10. rewrite Hq.
      split; [exact Hq0|apply Z.div_lt_upper_bound; lia].
    + change (10 ^ (3 - 2)) with 10 in Hd.
      change (index output_pins 2) with (Some 8). cbn [ofOption bindRun].
      destruct (IH (Z.quot digit 10) (2 + 1)) as (rest & ->);
        [lia| |lia|eexists; reflexivity].
      change (10 ^ (3 - (2 + 1))) with 1. rewrite Hq.
      split; [exact Hq0|apply Z.div_lt_upper_bound; lia].
    + change (10 ^ (3 - 3)) with 1 in Hd. lia.
Qed.

(** The bound of the model is never what ends the loop: the fourth digit
    pin does not exist. *)
Lemma displayLoop_fuel fuel : forall digit i,
  0 <= i <= 3 -> (4 - i <= Z.of_nat fuel) ->
  displayLoop fuel digit i <> NoFuel.
Proof.
  induction fuel as [|fuel IH]; intros digit i Hi Hf; [lia|].
  cbn [displayLoop].
  destruct (digit =? 0); [discriminate|].
  destruct (index digits _); cbn [ofOption bindRun]; [|discriminate].
  destruct (index output_pins i) as [pin|] eqn:Ep;
    cbn [ofOption bindRun]; [|discriminate].
  assert (i < 3)
    by (destruct (index_output_pins_Some _ _ Ep) as [[-> _]|[[-> _]|[-> _]]];
        lia).
  specialize (IH (Z.quot digit 10) (i + 1)).
  destruct (displayLoop fuel _ _); cbn [bindRun]; try discriminate.
  apply IH; lia.
Qed.

(** X4.  When [doDisplay] comes to its end, the bytes it has shifted out,
    decoded with the table and read least significant digit first, spell
    the tempo; they went to the digit pins 9, 10, 8 in this order, one
    byte per pin, at most three. *)
Theorem display_spells_the_tempo (s : State) (evs : list PinEvent) :
  doDisplay s = Done evs ->
  readBack (shifted evs) = Some (tempo s)
  /\ selected evs = firstn (length (shifted evs)) output_pins
  /\ (length (shifted evs) <= 3)%nat
  /\ (evs = [] <-> tempo s = 0).
Proof.
  unfold doDisplay. intros H.
  destruct (displayLoop_Done _ _ _ _ H) as (_ & Hr & Hs & Hn & Hl & _).
  cbn in Hs, Hl. repeat split; try assumption.
  - intros ->. cbn in Hr. congruence.
  - intros Ht. rewrite Ht in H. cbn in H. congruence.
Qed.

Lemma display_spells_the_tempo_witness :
  readBack [0xEB; 0xB3; 0x28] = Some 120.
Proof.
  destruct (doDisplay (initial HIGH HIGH)) as [evs| |] eqn:E;
    [|vm_compute in E; discriminate E|vm_compute in E; discriminate E].
  destruct (display_spells_the_tempo _ _ E) as (R & _).
  vm_compute in E. injection E as <-. exact R.
Defined.

(** X5.  [doDisplay] comes to its end exactly on a tempo from 0 to 999.
    On 0 it shows nothing, and on a tempo within [[TEMPO_MIN, TEMPO_MAX]]
    two or three digits.  On a negative tempo and from 1000 on it reads
    outside one of its arrays: [digits] below index 0, or [output_pins] at
    index 3. *)
Theorem display_bounds (s : State) :
  (0 <= tempo s <= 999 <-> exists evs, doDisplay s = Done evs)
  /\ (tempo s < 0 \/ 999 < tempo s <-> doDisplay s = Fault)
  /\ (tempo s = 0 -> doDisplay s = Done [])
  /\ (TEMPO_MIN <= tempo s <= TEMPO_MAX ->
      exists evs, doDisplay s = Done evs
        /\ length (shifted evs) = if tempo s <? 100 then 2%nat else 3%nat).
Proof.
  assert (NF : doDisplay s <> NoFuel)
    by (apply displayLoop_fuel; cbn; lia).
  assert (Fwd : 0 <= tempo s <= 999 -> exists evs, doDisplay s = Done evs).
  { intros H. apply displayLoop_runs; cbn; lia. }
  assert (Bwd : forall evs, doDisplay s = Done evs -> 0 <= tempo s <= 999).
  { intros evs H. unfold doDisplay in H.
    destruct (displayLoop_Done _ _ _ _ H) as (Hp & _).
    split; [exact Hp|].
    destruct (Z.le_gt_cases (tempo s) 999) as [|Hbig]; [assumption|].
    exfalso. revert H. cbn [displayLoop].
    destruct (Z.eqb_spec (tempo s) 0); [lia|].
    destruct (index digits _); cbn [ofOption bindRun]; [|discriminate].
    destruct (Z.eqb_spec (Z.quot (tempo s) 10) 0) as [E|_].
    { pose proof (Z.quot_rem' (tempo s) 10).
      pose proof (Z.rem_bound_pos (tempo s) 10). lia. }
    destruct (index digits _); cbn [ofOption bindRun]; [|discriminate].
    destruct (Z.eqb_spec (Z.quot (Z.quot (tempo s) 10) 10) 0) as [E|_].
    { pose proof (Z.quot_rem' (tempo s) 10).
      pose proof (Z.rem_bound_pos (tempo s) 10).
      pose proof (Z.quot_rem' (Z.quot (tempo s) 10) 10).
      pose proof (Z.rem_bound_pos (Z.quot (tempo s) 10) 10).
      pose proof (Z.quot_pos (tempo s) 10). lia. }
    destruct (index digits _); cbn [ofOption bindRun]; [|discriminate].
    destruct (Z.eqb_spec (Z.quot (Z.quot (Z.quot (tempo s) 10) 10) 10) 0)
      as [E|_].
    { pose proof (Z.quot_rem' (tempo s) 10).
      pose proof (Z.rem_bound_pos (tempo s) 10).
      pose proof (Z.quot_rem' (Z.quot (tempo s) 10) 10).
      pose proof (Z.rem_bound_pos (Z.quot (tempo s) 10) 10).
      pose proof (Z.quot_rem' (Z.quot (Z.quot (tempo s) 10) 10) 10).
      pose proof (Z.rem_bound_pos (Z.quot (Z.quot (tempo s) 10) 10) 10).
      pose proof (Z.quot_pos (tempo s) 10).
      pose proof (Z.quot_pos (Z.quot (tempo s) 10) 10). lia. }
    destruct (index digits _); cbn [ofOption bindRun]; discriminate. }
  split; [split; [exact Fwd|intros (evs & H); exact (Bwd evs H)]|].
  split; [|split].
  - split.
    + intros H. destruct (doDisplay s) as [evs| |] eqn:E;
        [specialize (Bwd evs eq_refl); lia|reflexivity|contradiction].
    + intros H.
      destruct (Z.lt_ge_cases (tempo s) 0) as [|H0]; [auto|].
      destruct (Z.le_gt_cases (tempo s) 999) as [H9|]; [|auto].
      destruct (Fwd (conj H0 H9)) as (evs & E). congruence.
  - intros H. unfold doDisplay. rewrite H. reflexivity.
  - intros H. unfold TEMPO_MIN, TEMPO_MAX in H.
    destruct (Fwd ltac:(lia)) as (evs & E). exists evs. split; [exact E|].
    revert E. unfold doDisplay. cbn [displayLoop].
    destruct (Z.eqb_spec (tempo s) 0); [lia|].
    destruct (index digits _); cbn [ofOption bindRun]; [|discriminate].
    assert (Q1 : Z.quot (tempo s) 10 = tempo s / 10)
      by (apply Z.quot_div_nonneg; lia).
    assert (Q2 : Z.quot (tempo s / 10) 10 = tempo s / 10 / 10)
      by (apply Z.quot_div_nonneg; [apply Z.div_pos|]; lia).
    assert (Q3 : Z.quot (tempo s / 10 / 10) 10 = 0).
    { apply Z.quot_small. split.
      - apply Z.div_pos; [apply Z.div_pos|]; lia.
      - apply Z.div_lt_upper_bound; [lia|].
        apply Z.div_lt_upper_bound; lia. }
    rewrite Q1.
    destruct (Z.eqb_spec (tempo s / 10) 0) as [E0|_].
    { pose proof (Z.div_mod (tempo s) 10).
      pose proof (Z.mod_pos_bound (tempo s) 10). lia. }
    destruct (index digits _); cbn [ofOption bindRun]; [|discriminate].
    rewrite Q2.
    destruct (Z.eqb_spec (tempo s / 10 / 10) 0) as [E1|N1].
    + intros [= <-]. cbn.
      destruct (Z.ltb_spec (tempo s) 100) as [|Hge]; [reflexivity|].
      exfalso.
      assert (10 <= tempo s / 10) by (apply Z.div_le_lower_bound; lia).
      assert (1 <= tempo s / 10 / 10) by (apply Z.div_le_lower_bound; lia).
      lia.
    + destruct (index digits _); cbn [ofOption bindRun]; [|discriminate].
      rewrite Q3. cbn. intros [= <-]. cbn.
      destruct (Z.ltb_spec (tempo s) 100) as [Hlt|]; [|reflexivity].
      exfalso.
      assert (tempo s / 10 < 10) by (apply Z.div_lt_upper_bound; lia).
      assert (tempo s / 10 / 10 < 1) by (apply Z.div_lt_upper_bound; lia).
      assert (0 <= tempo s / 10 / 10)
        by (apply Z.div_pos; [apply Z.div_pos|]; lia).
      lia.
Qed.

(** X6.  A run of [doDisplay] that comes to its end keeps the discipline of
    a multiplexed display: never two digits lit at once, the shift register
    loaded only while all digits are dark, and all digits dark again at the
    end. *)
Theorem display_is_multiplexed (s : State) (evs : list PinEvent) :
  doDisplay s = Done evs -> multiplexed None evs = true.
Proof.
  unfold doDisplay. intros H.
  now destruct (displayLoop_Done _ _ _ _ H) as (_ & _ & _ & _ & _ & M).
Qed.

Lemma display_is_multiplexed_witness :
  multiplexed None (showDigit 0xA8 9) = true.
Proof.
  destruct (doDisplay (set_tempo 7 (initial HIGH HIGH))) as [evs| |] eqn:E;
    [|vm_compute in E; discriminate E|vm_compute in E; discriminate E].
  pose proof (display_is_multiplexed _ _ E) as M.
  vm_compute in E. injection E as <-. exact M.
Defined.

(** X7.  The table [digits], with the segment order of its comment counted
    from bit 0: the byte of each digit lights exactly the segments of the
    figure of that digit and never the decimal point, and no two digits
    share a byte, so a byte decodes to its digit. *)
Theorem digits_table_draws_the_figures (d : Z) (x : Segment) :
  0 <= d <= 9 ->
  exists v,
    index digits d = Some v
    /\ lights v x = existsb (Segment_eqb x) (figure d)
    /\ lights v SegDP = false
    /\ decodeDigit v = Some d.
Proof.
  intros H.
  assert (C : d = 0 \/ d = 1 \/ d = 2 \/ d = 3 \/ d = 4 \/ d = 5 \/ d = 6
              \/ d = 7 \/ d = 8 \/ d = 9) by lia.
  repeat (destruct C as [->|C];
          [eexists; split; [reflexivity|]; destruct x; repeat split|]).
  subst d. eexists. split; [reflexivity|]. destruct x; repeat split.
Qed.

Lemma digits_table_draws_the_figures_witness :
  lights 0x78 SegF = true /\ lights 0x78 SegA = false.
Proof.
  destruct (digits_table_draws_the_figures 4 SegF) as (v & E & L & _);
    [lia|].
  destruct (digits_table_draws_the_figures 4 SegA) as (w & E' & L' & _);
    [lia|].
  vm_compute in E, E'. injection E as <-. injection E' as <-.
  split; [exact L|exact L'].
Defined.

(** ** Where the period computation and the tap estimator fault *)

(** The 16-bit product [tempo * PPQ] is 0 exactly on the multiples of
    8192. *)
Lemma tick_divisor_zero x : s16 (x * PPQ) = 0 <-> x mod 8192 = 0.
Proof.
  unfold s16, PPQ. change (2 ^ 15) with 32768. change (2 ^ 16) with 65536.
  pose proof (Z.div_mod (x * 24 + 32768) 65536 ltac:(lia)) as D1.
  pose proof (Z.mod_pos_bound (x * 24 + 32768) 65536 ltac:(lia)) as B1.
  pose proof (Z.div_mod x 8192 ltac:(lia)) as D2.
  pose proof (Z.mod_pos_bound x 8192 ltac:(lia)) as B2.
  set (q1 := (x * 24 + 32768) / 65536) in *.
  set (r1 := (x * 24 + 32768) mod 65536) in *.
  set (q2 := x / 8192) in *. set (r2 := x mod 8192) in *.
  split; intros H.
  - assert (E : 3 * r2 = 8192 * (q1 - 3 * q2)) by lia.
    assert (0 <= q1 - 3 * q2 < 3) by lia.
    assert (C : q1 - 3 * q2 = 0 \/ q1 - 3 * q2 = 1 \/ q1 - 3 * q2 = 2) by lia.
    destruct C as [C|[C|C]]; rewrite C in E; lia.
  - lia.
Qed.

Lemma s16_mod_8192 x : s16 x mod 8192 = x mod 8192.
Proof.
  unfold s16. change (2 ^ 15) with (4 * 8192). change (2 ^ 16) with 65536.
  pose proof (Z.div_mod (x + 4 * 8192) 65536 ltac:(lia)) as D.
  replace ((x + 4 * 8192) mod 65536 - 4 * 8192)
    with (x + (- 8 * ((x + 4 * 8192) / 65536)) * 8192) by lia.
  apply Z.mod_add. lia.
Qed.

Lemma calcTempoMicros_None_iff s :
  calcTempoMicros s = None <-> tempo s mod 8192 = 0.
Proof.
  rewrite <- tick_divisor_zero. unfold calcTempoMicros.
  destruct (Z.eqb_spec (s16 (tempo s * PPQ)) 0) as [E|E];
    split; intros H; congruence.
Qed.

(** X8.  [calcTempoMicros] divides by zero exactly when the tempo is a
    multiple of 8192, 0 among them: there the 16-bit product [tempo * PPQ]
    is 0.  On every other tempo it returns. *)
Theorem calcTempoMicros_faults_on_multiples_of_8192 (s : State) :
  (calcTempoMicros s = None <-> tempo s mod 8192 = 0)
  /\ (tempo s mod 8192 <> 0 ->
      exists period, calcTempoMicros s = Some period)
  /\ (tempo s = 0 -> calcTempoMicros s = None).
Proof.
  pose proof (calcTempoMicros_None_iff s) as A.
  split; [exact A|]. split.
  - intros H. destruct (calcTempoMicros s) as [p|]; [now exists p|].
    exfalso. apply H, A. reflexivity.
  - intros H. apply A. rewrite H. reflexivity.
Qed.

(** A second tap, as far as it goes without the period. *)
Lemma tapTempo_second_eq us s :
  lastTapTime s <> 0 ->
  u32 (us - lastTapTime s) <> 0 ->
  tapTempo us s =
    (let delta := u32 (us - lastTapTime s) in
     let s1 := set_tempo (s16 (60000000 / delta))
                 (set_tapExpireTime (u32 (delta * TAP_EXPIRE_FACTOR)) s) in
     p <- calcTempoMicros s1 ;;
     Some (set_lastTapTime us (Timer1_setPeriod p s1))).
Proof.
  intros Hl Hd. unfold tapTempo.
  destruct (Z.eqb_spec (lastTapTime s) 0); [contradiction|].
  destruct (Z.eqb_spec (u32 (us - lastTapTime s)) 0); [contradiction|].
  open_state s. reflexivity.
Qed.

(** X9.  With a tap recorded, [tapTempo] faults exactly when the interval
    to the new tap is 0 or the quotient [60000000 / interval] is a multiple
    of 8192; the latter holds for every interval above 60,000,000
    microseconds, where the quotient, and with it the tempo, is 0. *)
Theorem tapTempo_faults (us : Z) (s : State) :
  lastTapTime s <> 0 ->
  let delta := u32 (us - lastTapTime s) in
  (tapTempo us s = None <->
   delta = 0 \/ (60000000 / delta) mod 8192 = 0)
  /\ (60000000 < delta -> tapTempo us s = None).
Proof.
  intros Hl. cbv zeta.
  set (delta := u32 (us - lastTapTime s)).
  assert (A : tapTempo us s = None <->
              delta = 0 \/ (60000000 / delta) mod 8192 = 0).
  { destruct (Z.eq_dec delta 0) as [E0|N0].
    - split; [auto|]. intros _. unfold tapTempo.
      destruct (Z.eqb_spec (lastTapTime s) 0); [contradiction|].
      fold delta. rewrite E0. reflexivity.
    - rewrite (tapTempo_second_eq us s Hl N0). cbv zeta. fold delta.
      set (s1 := set_tempo _ _).
      assert (T1 : tempo s1 = s16 (60000000 / delta))
        by (subst s1; open_state s; reflexivity).
      pose proof (calcTempoMicros_None_iff s1) as F.
      rewrite T1, s16_mod_8192 in F.
      destruct (calcTempoMicros s1) as [p|]; cbn [bind].
      + split; [discriminate|]. intros [E|E]; [contradiction|].
        apply F in E. discriminate E.
      + split; [|reflexivity]. intros _. right. now apply F. }
  split; [exact A|].
  intros H. apply A. right.
  rewrite Z.div_small by (pose proof (u32_small 0); lia). reflexivity.
Qed.

Lemma tapTempo_faults_witness :
  tapTempo 62000000 (set_lastTapTime 1000000 (initial HIGH HIGH)) = None.
Proof.
  destruct (tapTempo_faults 62000000
              (set_lastTapTime 1000000 (initial HIGH HIGH))) as [_ F].
  - simpl. lia.
  - apply F. vm_compute. reflexivity.
Defined.

(** X10.  A second tap that returns, at an interval of at least 1832
    microseconds: the tempo is [60000000 / interval] as it stands, the
    expiry window is twice the interval and the tap is recorded.  The tempo
    is within [[TEMPO_MIN, TEMPO_MAX]] exactly for the intervals from
    199,336 to 1,500,000 microseconds. *)
Theorem tapTempo_interval_to_tempo (us : Z) (s s' : State) :
  lastTapTime s <> 0 ->
  tapTempo us s = Some s' ->
  1832 <= u32 (us - lastTapTime s) ->
  let delta := u32 (us - lastTapTime s) in
  tempo s' = 60000000 / delta
  /\ (TEMPO_MIN <= tempo s' <= TEMPO_MAX <-> 199336 <= delta <= 1500000)
  /\ tapExpireTime s' = u32 (delta * 2)
  /\ lastTapTime s' = us
  /\ calcTempoMicros s' = Some (timerPeriod s').
Proof.
  intros Hl H Hd. cbv zeta.
  set (delta := u32 (us - lastTapTime s)) in *.
  rewrite (tapTempo_second_eq us s Hl) in H by (fold delta; lia).
  cbv zeta in H. fold delta in H.
  assert (Q : 0 <= 60000000 / delta < 2 ^ 15).
  { split; [apply Z.div_pos; lia|].
    apply Z.div_lt_upper_bound; lia. }
  rewrite (s16_small (60000000 / delta)) in H by lia.
  destruct (calcTempoMicros _) as [p|] eqn:Ep; [|discriminate H].
  cbn [bind] in H. injection H as <-.
  assert (R : TEMPO_MIN <= 60000000 / delta <= TEMPO_MAX
              <-> 199336 <= delta <= 1500000).
  { unfold TEMPO_MIN, TEMPO_MAX. split; intros [A B].
    - split.
      + destruct (Z.le_gt_cases 199336 delta) as [|C]; [assumption|].
        exfalso.
        assert (301 <= 60000000 / delta)
          by (apply Z.div_le_lower_bound; lia).
        lia.
      + destruct (Z.le_gt_cases delta 1500000) as [|C]; [assumption|].
        exfalso.
        assert (60000000 / delta < 40)
          by (apply Z.div_lt_upper_bound; lia).
        lia.
    - split.
      + apply Z.div_le_lower_bound; lia.
      + assert (60000000 / delta < 301)
          by (apply Z.div_lt_upper_bound; lia).
        lia. }
  revert Ep. unfold TAP_EXPIRE_FACTOR. open_state s. fields. intros Ep.
  split; [reflexivity|]. split; [exact R|].
  repeat split.
  unfold calcTempoMicros in Ep |- *. fields. exact Ep.
Qed.

Lemma tapTempo_interval_to_tempo_witness :
  exists s',
    tapTempo 5500000 (set_lastTapTime 5000000 (initial HIGH HIGH)) = Some s'
    /\ tempo s' = 120.
Proof.
  destruct (tapTempo 5500000 (set_lastTapTime 5000000 (initial HIGH HIGH)))
    as [s'|] eqn:E; [|vm_compute in E; discriminate E].
  exists s'. split; [reflexivity|].
  destruct (tapTempo_interval_to_tempo 5500000
              (set_lastTapTime 5000000 (initial HIGH HIGH)) s')
    as (T & _).
  - simpl. lia.
  - exact E.
  - vm_compute. discriminate.
  - rewrite T. reflexivity.
Defined.

(** X11.  On [[TEMPO_MIN, TEMPO_MAX]] a faster tempo always has a strictly
    shorter period: no two tempos share a period, so every step of the
    tempo reprograms Timer1 to a different value. *)
Theorem calcTempoMicros_strictly_decreasing (a b : State) :
  TEMPO_MIN <= tempo a -> tempo a < tempo b -> tempo b <= TEMPO_MAX ->
  exists pa pb,
    calcTempoMicros a = Some pa /\ calcTempoMicros b = Some pb /\ pb < pa.
Proof.
  intros Ha Hab Hb.
  rewrite (calcTempoMicros_in_range a) by lia.
  rewrite (calcTempoMicros_in_range b) by lia.
  eexists _, _. split; [reflexivity|]. split; [reflexivity|].
  unfold TEMPO_MIN, TEMPO_MAX in *.
  set (x := tempo a) in *. set (y := tempo b) in *.
  pose proof (Z.div_mod 60000000 (x * 24) ltac:(lia)) as Dx.
  pose proof (Z.mod_pos_bound 60000000 (x * 24) ltac:(lia)) as Bx.
  pose proof (Z.div_mod 60000000 (y * 24) ltac:(lia)) as Dy.
  pose proof (Z.mod_pos_bound 60000000 (y * 24) ltac:(lia)) as By.
  assert (Lx : 8333 <= 60000000 / (x * 24))
    by (apply Z.div_le_lower_bound; lia).
  set (qx := 60000000 / (x * 24)) in *.
  set (qy := 60000000 / (y * 24)) in *.
  destruct (Z.lt_ge_cases qy qx) as [|C]; [assumption|]. exfalso.
  assert (y * 24 * qy >= (x + 1) * 24 * qx) by nia.
  nia.
Qed.

Lemma calcTempoMicros_strictly_decreasing_witness :
  exists pa pb,
    calcTempoMicros (set_tempo 299 (initial HIGH HIGH)) = Some pa
    /\ calcTempoMicros (set_tempo 300 (initial HIGH HIGH)) = Some pb
    /\ pb < pa.
Proof.
  apply (calcTempoMicros_strictly_decreasing
           (set_tempo 299 (initial HIGH HIGH))
           (set_tempo 300 (initial HIGH HIGH)));
    simpl; unfold TEMPO_MIN, TEMPO_MAX; lia.
Defined.

(** ** The buttons *)

(** X12.  A button that is held is one press.  After the poll that took
    the press, polls that keep reading the button down, however many and
    whenever, take no further press: the transport sends nothing more, and
    on the tap button [tapTempo] is not called again, so that the tempo,
    the period and the expiry window stay as the press left them. *)
Theorem held_button_is_one_press (ps : list Poll) (s : State) :
  Forall (fun p => pinLevel p = LOW) ps ->
  (lastStartState s = LOW ->
   fst (pollStart ps s) = repeat false (length ps)
   /\ midiOut (snd (pollStart ps s)) = midiOut s
   /\ started (snd (pollStart ps s)) = started s)
  /\ (lastTapState s = LOW ->
      exists s',
        pollTap ps s = Some (repeat false (length ps), s')
        /\ tempo s' = tempo s
        /\ timerPeriod s' = timerPeriod s
        /\ tapExpireTime s' = tapExpireTime s).
Proof.
  intros Hall. split.
  - revert s. induction Hall as [|p ps Hp _ IH]; intros s Hs.
    + cbn. auto.
    + assert (Hn : startPress p s = false)
        by (unfold startPress; rewrite Hp, Hs; reflexivity).
      assert (E : doStartStopInput p s
                  = set_lastStartDebounceTime
                      (timerAfter p (lastStartDebounceTime s)) s).
      { rewrite (doStartStopInput_no_press p s Hn), Hp, Hs. reflexivity. }
      cbn [pollStart length repeat].
      specialize (IH (doStartStopInput p s)).
      destruct (pollStart ps (doStartStopInput p s)) as [bs s'].
      cbn [fst snd] in IH |- *. rewrite Hn.
      destruct IH as (B & M & A);
        [rewrite E; revert Hs; open_state s; auto|].
      rewrite B, M, A, E. open_state s. auto.
  - revert s. induction Hall as [|p ps Hp _ IH]; intros s Hs.
    + exists s. cbn. auto.
    + assert (Hn : tapPress p s = false)
        by (unfold tapPress; rewrite Hp, Hs; reflexivity).
      assert (Hi : idlePoll p s) by (unfold idlePoll; congruence).
      pose proof (doTapInput_idle p s Hi) as E.
      set (s1 := set_lastTapDebounceTime _ _) in E.
      assert (F : lastTapState s1 = LOW /\ tempo s1 = tempo s
                  /\ timerPeriod s1 = timerPeriod s
                  /\ tapExpireTime s1 = tapExpireTime s).
      { subst s1. destruct (tapExpired p s); revert Hs; open_state s; auto. }
      destruct F as (F1 & F2 & F3 & F4).
      destruct (IH s1 F1) as (s' & E' & T' & P' & X').
      exists s'. cbn [pollTap length repeat].
      rewrite E. cbn [bind]. rewrite E'. cbn [bind fst snd]. rewrite Hn.
      repeat split; congruence.
Qed.

Lemma held_button_is_one_press_witness :
  fst (pollStart [mkPoll LOW 200 200 200000; mkPoll LOW 5000 5000 5000000]
         (doStartStopInput (mkPoll LOW 100 100 100000) (initial HIGH HIGH)))
  = [false; false].
Proof.
  destruct (held_button_is_one_press
              [mkPoll LOW 200 200 200000; mkPoll LOW 5000 5000 5000000]
              (doStartStopInput (mkPoll LOW 100 100 100000)
                 (initial HIGH HIGH))) as [H _].
  - repeat constructor.
  - destruct H as (B & _); [reflexivity|exact B].
Defined.

(** X13.  The debounce timer runs for [DEBOUNCE_TIME] milliseconds and no
    longer.  With the timer of a button stamped [T > 0], a poll whose
    closing [millis()] reading [now] is at least [DEBOUNCE_TIME] (and has
    not wrapped) takes no press and leaves the timer running if
    [now < T + DEBOUNCE_TIME], and clears it otherwise, so that the next
    poll can take an edge again. *)
Theorem debounce_timer_runs_for_debounce_time (p : Poll) (s : State) :
  DEBOUNCE_TIME <= millisEnd p < 2 ^ 32 ->
  (0 < lastStartDebounceTime s ->
   startPress p s = false
   /\ doStartStopInput p s
      = set_lastStartDebounceTime
          (if millisEnd p <? lastStartDebounceTime s + DEBOUNCE_TIME
           then lastStartDebounceTime s else 0) s)
  /\ (0 < lastTapDebounceTime s ->
      tapPress p s = false
      /\ exists s',
           doTapInput p s = Some s'
           /\ lastTapDebounceTime s'
              = (if millisEnd p <? lastTapDebounceTime s + DEBOUNCE_TIME
                 then lastTapDebounceTime s else 0)
           /\ lastTapState s' = lastTapState s
           /\ tempo s' = tempo s).
Proof.
  intros Hm.
  assert (K : forall T, 0 < T ->
              timerAfter p T
              = if millisEnd p <? T + DEBOUNCE_TIME then T else 0).
  { intros T HT. unfold timerAfter, DEBOUNCE_TIME in *.
    rewrite u32_small by lia.
    destruct (Z.geb_spec (millisEnd p - 30) T);
      destruct (Z.ltb_spec (millisEnd p) (T + 30)); lia || reflexivity. }
  split.
  - intros HT.
    assert (Hz : (lastStartDebounceTime s =? 0) = false)
      by (apply Z.eqb_neq; lia).
    assert (Hp : startPress p s = false)
      by (unfold startPress; rewrite Hz, andb_false_r; reflexivity).
    split; [exact Hp|].
    rewrite (doStartStopInput_no_press p s Hp), Hz, andb_false_r.
    now rewrite K.
  - intros HT.
    assert (Hz : (lastTapDebounceTime s =? 0) = false)
      by (apply Z.eqb_neq; lia).
    split; [unfold tapPress; rewrite Hz, andb_false_r; reflexivity|].
    unfold doTapInput. rewrite Hz.
    destruct (negb (pinLevel p =? lastTapState s)).
    + cbn [bind]. rewrite close_tap_timer, K by exact HT.
      eexists. split; [reflexivity|]. open_state s. auto.
    + destruct ((lastTapTime s >? 0) && _); cbn [bind];
        rewrite close_tap_timer; eexists; (split; [reflexivity|]);
        revert HT K; open_state s; intros HT K; fields;
        rewrite K by exact HT; auto.
Qed.

Lemma debounce_timer_runs_for_debounce_time_witness :
  lastStartDebounceTime
    (doStartStopInput (mkPoll HIGH 129 129 129000)
       (doStartStopInput (mkPoll LOW 100 100 100000) (initial HIGH HIGH)))
  = 100
  /\ lastStartDebounceTime
       (doStartStopInput (mkPoll HIGH 130 130 130000)
          (doStartStopInput (mkPoll LOW 100 100 100000) (initial HIGH HIGH)))
     = 0.
Proof.
  split.
  - destruct (debounce_timer_runs_for_debounce_time
                (mkPoll HIGH 129 129 129000)
                (doStartStopInput (mkPoll LOW 100 100 100000)
                   (initial HIGH HIGH))) as [H _].
    + simpl. unfold DEBOUNCE_TIME. lia.
    + destruct H as [_ E]; [vm_compute; reflexivity|].
      rewrite E. reflexivity.
  - destruct (debounce_timer_runs_for_debounce_time
                (mkPoll HIGH 130 130 130000)
                (doStartStopInput (mkPoll LOW 100 100 100000)
                   (initial HIGH HIGH))) as [H _].
    + simpl. unfold DEBOUNCE_TIME. lia.
    + destruct H as [_ E]; [vm_compute; reflexivity|].
      rewrite E. reflexivity.
Defined.

(** ** The two polls side by side *)

(** Case analysis on a test that holds no other test. *)
Ltac split_inner_test :=
  match goal with
  | |- context [if ?c then _ else _] =>
      lazymatch c with
      | context [if _ then _ else _] => fail
      | _ => destruct c; fields
      end
  end.

(** What the tap poll does depends on the globals of the estimator alone,
    and what the transport poll does on those of the transport alone. *)
Lemma doTapInput_view p a b :
  tapView a = tapView b ->
  match doTapInput p a, doTapInput p b with
  | Some a', Some b' => tapView a' = tapView b'
  | None, None => True
  | _, _ => False
  end.
Proof.
  destruct a, b. unfold tapView. cbn.
  intros [= -> -> -> -> -> ->].
  unfold doTapInput, tapTempo, calcTempoMicros. fields.
  repeat split_inner_test; reflexivity || exact I.
Qed.

Lemma doStartStopInput_view p a b :
  transportView a = transportView b ->
  transportView (doStartStopInput p a) = transportView (doStartStopInput p b).
Proof.
  destruct a, b. unfold transportView. cbn.
  intros [= -> -> -> -> -> -> ->].
  unfold doStartStopInput. rewrite !allNotesOff_eq. fields.
  repeat split_inner_test; reflexivity.
Qed.

(** X14.  The two buttons do not interfere: polling the tap button and
    then the transport button, as [loop] does, gives the same state, or the
    same fault, as polling them the other way round. *)
Theorem button_polls_commute (p q : Poll) (s : State) :
  option_map (doStartStopInput q) (doTapInput p s)
  = doTapInput p (doStartStopInput q s).
Proof.
  destruct (doStartStopInput_writes q s) as (V & C & _).
  pose proof (doTapInput_view p (doStartStopInput q s) s V) as D.
  destruct (doTapInput p s) as [s1|] eqn:E1;
    destruct (doTapInput p (doStartStopInput q s)) as [b|] eqn:E2;
    try contradiction; [|reflexivity].
  cbn [option_map]. f_equal.
  destruct (doTapInput_writes _ _ _ E1) as (T1 & C1 & _).
  destruct (doTapInput_writes _ _ _ E2) as (T2 & C2 & _).
  destruct (doStartStopInput_writes q s1) as (V1 & D1 & _).
  apply views_ext.
  - rewrite T2. now apply doStartStopInput_view.
  - congruence.
  - congruence.
Qed.

(** ** The encoder and the pass of the loop *)

Lemma tempoEncoder_read_frame moved s :
  tempo (tempoEncoder_read moved s) = tempo s
  /\ encoderCount (tempoEncoder_read moved s) = s32 (encoderCount s + moved).
Proof. unfold tempoEncoder_read. open_state s. auto. Qed.

(** X15.  The encoder block of [loop] never faults and moves the tempo by
    at most one clamped step a pass; it steps only when the reading differs
    from [position] and is, as an [int], above 3 or below -3, and a step
    sets the count of the encoder back to 0.  A smaller reading neither
    steps the tempo nor sets the count back. *)
Theorem encoder_steps_past_three_counts (moved : Z) (k : Sketch) :
  let reading := s32 (encoderCount (globals k) + moved) in
  exists k',
    loopEncoder moved k = Some k'
    /\ (tempo (globals k') = tempo (globals k)
        \/ tempo (globals k') = clamp (s16 (tempo (globals k) + 1))
        \/ tempo (globals k') = clamp (s16 (tempo (globals k) - 1)))
    /\ (tempo (globals k') <> tempo (globals k) ->
        reading <> position k
        /\ (3 < s16 reading \/ s16 reading < -3)
        /\ encoderCount (globals k') = 0)
    /\ (reading <> position k -> 3 < s16 reading ->
        tempo (globals k') = clamp (s16 (tempo (globals k) + 1))
        /\ encoderCount (globals k') = 0 /\ position k' = s16 reading)
    /\ (reading <> position k -> s16 reading < -3 ->
        tempo (globals k') = clamp (s16 (tempo (globals k) - 1))
        /\ encoderCount (globals k') = 0 /\ position k' = s16 reading)
    /\ (-3 <= s16 reading <= 3 ->
        tempo (globals k') = tempo (globals k)
        /\ encoderCount (globals k') = reading).
Proof.
  cbv zeta. destruct k as [s pos]. cbn [globals position].
  destruct (tempoEncoder_read_frame moved s) as [Ft Fc].
  unfold loopEncoder. cbn [globals position]. rewrite Fc.
  set (reading := s32 (encoderCount s + moved)) in *.
  set (s0 := tempoEncoder_read moved s) in *.
  rewrite !changeTempo_eq, Ft. cbn [bind].
  change (tempo s + -1) with (tempo s - 1).
  destruct (Z.eqb_spec reading pos) as [Eq|Ne]; cbn [negb].
  - eexists. split; [reflexivity|]. cbn [globals position].
    rewrite Ft, Fc. fold reading.
    repeat split; auto; try contradiction; congruence.
  - cbv zeta.
    destruct (Z.gtb_spec (s16 reading) 3) as [Hgt|Hle].
    + eexists. split; [reflexivity|]. cbn [globals position].
      assert (F : tempo (set_encoderCount 0
                          (set_timerPeriod
                             (60000000 / (clamp (s16 (tempo s + 1)) * 24))
                             (set_tempo (clamp (s16 (tempo s + 1))) s0)))
                  = clamp (s16 (tempo s + 1))
                  /\ encoderCount
                       (set_encoderCount 0
                          (set_timerPeriod
                             (60000000 / (clamp (s16 (tempo s + 1)) * 24))
                             (set_tempo (clamp (s16 (tempo s + 1))) s0)))
                     = 0)
        by (destruct s0; auto).
      destruct F as [-> ->].
      repeat split; auto; try lia.
    + destruct (Z.ltb_spec (s16 reading) (-3)) as [Hlt|Hge].
      * eexists. split; [reflexivity|]. cbn [globals position].
        assert (F : tempo (set_encoderCount 0
                            (set_timerPeriod
                               (60000000 / (clamp (s16 (tempo s - 1)) * 24))
                               (set_tempo (clamp (s16 (tempo s - 1))) s0)))
                    = clamp (s16 (tempo s - 1))
                    /\ encoderCount
                         (set_encoderCount 0
                            (set_timerPeriod
                               (60000000 / (clamp (s16 (tempo s - 1)) * 24))
                               (set_tempo (clamp (s16 (tempo s - 1))) s0)))
                       = 0)
          by (destruct s0; auto).
        destruct F as [-> ->].
        repeat split; auto; try lia.
      * eexists. split; [reflexivity|]. cbn [globals position].
        rewrite Ft, Fc. fold reading.
        repeat split; auto; try lia; try contradiction.
Qed.

(** X16.  A step can be swallowed.  From a count of 0, a pass that finds
    the encoder moved by [r > 3] counts steps the tempo up; [position] then
    holds [r] while the count is back at 0.  If the encoder has moved by
    exactly [r] counts again when the next pass reads it, that pass sees no
    change of reading: the tempo is not stepped, and the count, left at
    [r], is not set back. *)
Theorem encoder_step_can_be_swallowed (r : Z) (k k1 : Sketch) :
  3 < r < 2 ^ 15 ->
  encoderCount (globals k) = 0 ->
  position k <> r ->
  loopEncoder r k = Some k1 ->
  tempo (globals k1) = clamp (s16 (tempo (globals k) + 1))
  /\ encoderCount (globals k1) = 0
  /\ position k1 = r
  /\ exists k2,
       loopEncoder r k1 = Some k2
       /\ tempo (globals k2) = tempo (globals k1)
       /\ encoderCount (globals k2) = r
       /\ position k2 = r.
Proof.
  intros Hr Hc Hpos H.
  assert (R32 : s32 (0 + r) = r) by (apply s32_small; lia).
  assert (R16 : s16 r = r) by (apply s16_small; lia).
  destruct k as [s pos]. cbn [globals position] in *.
  unfold loopEncoder in H. cbn [globals position] in H.
  destruct (tempoEncoder_read_frame r s) as [Ft Fc].
  rewrite Hc, R32 in Fc. rewrite Fc in H.
  destruct (Z.eqb_spec r pos) as [E|_]; [congruence|].
  cbn [negb] in H. cbv zeta in H. rewrite R16 in H.
  destruct (Z.gtb_spec r 3) as [_|]; [|lia].
  rewrite changeTempo_eq, Ft in H. cbn [bind] in H. injection H as <-.
  cbn [globals position].
  set (g1 := set_encoderCount 0 _).
  assert (F : tempo g1 = clamp (s16 (tempo s + 1)) /\ encoderCount g1 = 0)
    by (subst g1; destruct (tempoEncoder_read r s); auto).
  destruct F as [F1 F2].
  split; [exact F1|]. split; [exact F2|]. split; [reflexivity|].
  unfold loopEncoder. cbn [globals position].
  destruct (tempoEncoder_read_frame r g1) as [Gt Gc].
  rewrite F2, R32 in Gc. rewrite Gc, Z.eqb_refl. cbn [negb].
  eexists. split; [reflexivity|]. cbn [globals position]. auto.
Qed.

Lemma encoder_step_can_be_swallowed_witness :
  exists k1 k2,
    loopEncoder 4 (mkSketch (initial HIGH HIGH) 0) = Some k1
    /\ loopEncoder 4 k1 = Some k2
    /\ tempo (globals k1) = 121 /\ tempo (globals k2) = 121
    /\ encoderCount (globals k2) = 4.
Proof.
  destruct (loopEncoder 4 (mkSketch (initial HIGH HIGH) 0)) as [k1|] eqn:E;
    [|vm_compute in E; discriminate E].
  destruct (encoder_step_can_be_swallowed 4 (mkSketch (initial HIGH HIGH) 0)
              k1) as (T1 & _ & _ & k2 & E2 & T2 & C2 & _).
  - lia.
  - reflexivity.
  - simpl. lia.
  - exact E.
  - exists k1, k2. rewrite T2, T1, C2. repeat split. exact E2.
Defined.

Lemma loopEncoder_returns moved k :
  exists k1,
    loopEncoder moved k = Some k1
    /\ (tempo (globals k1) = tempo (globals k)
        \/ exists offset,
             tempo (globals k1) = clamp (s16 (tempo (globals k) + offset))).
Proof.
  destruct k as [s pos]. unfold loopEncoder. cbn [globals position].
  destruct (tempoEncoder_read_frame moved s) as [Ft _].
  rewrite !changeTempo_eq, Ft. cbn [bind].
  destruct (negb _); [|eexists; split; [reflexivity|]; cbn; auto].
  cbv zeta.
  destruct (_ >? 3); [|destruct (_ <? -3)];
    (eexists; split; [reflexivity|]); cbn [globals]; auto;
    right; eexists; destruct (tempoEncoder_read moved s); reflexivity.
Qed.

(** X17.  As long as no second tap comes in, a pass of [loop] is safe.
    From a tempo within [[TEMPO_MIN, TEMPO_MAX]], a pass whose tap poll is
    no press, or a press with no tap recorded, returns; the tempo it leaves
    is within [[TEMPO_MIN, TEMPO_MAX]] again, and the display has spelled
    that tempo. *)
Theorem loop_is_safe_without_a_second_tap (io : Pass) (k : Sketch) :
  TEMPO_MIN <= tempo (globals k) <= TEMPO_MAX ->
  (tapPress (tapPoll io) (globals k) = true -> lastTapTime (globals k) = 0) ->
  exists k' shown,
    loop io k = Done (k', shown)
    /\ TEMPO_MIN <= tempo (globals k') <= TEMPO_MAX
    /\ readBack (shifted shown) = Some (tempo (globals k')).
Proof.
  intros Hr Htap.
  destruct (loopEncoder_returns (encoderMoved io) k) as (k1 & Ee & Ht1).
  destruct (loopEncoder_writes _ _ _ Ee) as (_ & Wd & Ws & Wt & _).
  assert (R1 : TEMPO_MIN <= tempo (globals k1) <= TEMPO_MAX).
  { destruct Ht1 as [->|(offset & ->)]; [exact Hr|apply clamp_range]. }
  assert (P1 : tapPress (tapPoll io) (globals k1)
               = tapPress (tapPoll io) (globals k))
    by (unfold tapPress; now rewrite Wd, Ws).
  assert (E2 : exists s2, doTapInput (tapPoll io) (globals k1) = Some s2
                          /\ tempo s2 = tempo (globals k1)).
  { destruct (tapPress (tapPoll io) (globals k1)) eqn:Hp.
    - assert (L0 : lastTapTime (globals k1) = 0)
        by (rewrite Wt; apply Htap; symmetry; exact P1).
      rewrite (doTapInput_press _ _ Hp).
      rewrite tapTempo_first by (revert L0; destruct (globals k1); auto).
      cbn [bind]. eexists. split; [reflexivity|].
      now destruct (globals k1).
    - destruct (doTapInput_no_press _ _ Hp) as (s2 & E & T & _).
      now exists s2. }
  destruct E2 as (s2 & E2 & T2).
  destruct (doStartStopInput_writes (startPoll io) s2) as (V & _).
  unfold tapView in V. injection V as _ _ _ _ T3 _.
  assert (R3 : TEMPO_MIN <= tempo (doStartStopInput (startPoll io) s2)
               <= TEMPO_MAX) by (rewrite T3, T2; exact R1).
  destruct (displayLoop_runs 8 (tempo (doStartStopInput (startPoll io) s2)) 0)
    as (shown & Ed);
    [lia|unfold TEMPO_MIN, TEMPO_MAX in R3; cbn; lia|cbn; lia|].
  exists (mkSketch (doStartStopInput (startPoll io) s2) (position k1)), shown.
  split.
  - unfold loop. rewrite Ee. cbn [ofOption bindRun]. rewrite E2.
    cbn [ofOption bindRun]. unfold doDisplay. rewrite Ed. reflexivity.
  - cbn [globals]. split; [exact R3|].
    now destruct (displayLoop_Done _ _ _ _ Ed) as (_ & B & _).
Qed.

Lemma loop_is_safe_without_a_second_tap_witness :
  exists k' shown,
    loop (mkPass 4 (mkPoll LOW 100 100 100000) (mkPoll LOW 100 100 100000))
      (mkSketch (initial HIGH HIGH) 0) = Done (k', shown)
    /\ readBack (shifted shown) = Some (tempo (globals k')).
Proof.
  destruct (loop_is_safe_without_a_second_tap
              (mkPass 4 (mkPoll LOW 100 100 100000)
                 (mkPoll LOW 100 100 100000))
              (mkSketch (initial HIGH HIGH) 0))
    as (k' & shown & E & _ & B).
  - simpl. unfold TEMPO_MIN, TEMPO_MAX. lia.
  - intros _. reflexivity.
  - exists k', shown. split; assumption.
Defined.

(** ** The expiry of a tap *)

(** X18.  Once [micros()] has passed the expiry window (and has not
    wrapped since the tap), a recorded tap lasts exactly as long as the
    window: an idle poll at [now] clears it if [now - lastTapTime >=
    tapExpireTime] and keeps it otherwise; nothing else of the estimator
    changes. *)
Theorem tap_is_kept_for_its_window (p : Poll) (s : State) :
  idlePoll p s ->
  0 < lastTapTime s <= microsNow p ->
  0 <= tapExpireTime s <= microsNow p ->
  microsNow p < 2 ^ 32 ->
  exists s',
    doTapInput p s = Some s'
    /\ lastTapTime s'
       = (if microsNow p - lastTapTime s >=? tapExpireTime s
          then 0 else lastTapTime s)
    /\ tapExpireTime s' = tapExpireTime s
    /\ tempo s' = tempo s
    /\ timerPeriod s' = timerPeriod s.
Proof.
  intros Hi Hl He Hn.
  rewrite (doTapInput_idle p s Hi).
  eexists. split; [reflexivity|].
  assert (X : tapExpired p s
              = (microsNow p - lastTapTime s >=? tapExpireTime s)).
  { unfold tapExpired. rewrite u32_small by lia.
    destruct (Z.gtb_spec (lastTapTime s) 0); [|lia]. cbn [andb].
    destruct (Z.geb_spec (microsNow p - tapExpireTime s) (lastTapTime s));
      destruct (Z.geb_spec (microsNow p - lastTapTime s) (tapExpireTime s));
      lia || reflexivity. }
  rewrite X.
  destruct (microsNow p - lastTapTime s >=? tapExpireTime s);
    open_state s; auto.
Qed.

Lemma tap_is_kept_for_its_window_witness :
  exists s',
    doTapInput (mkPoll HIGH 6714 6714 6714999)
      (set_lastTapTime 5000000 (initial HIGH HIGH)) = Some s'
    /\ lastTapTime s' = 5000000.
Proof.
  destruct (tap_is_kept_for_its_window (mkPoll HIGH 6714 6714 6714999)
              (set_lastTapTime 5000000 (initial HIGH HIGH)))
    as (s' & E & L & _).
  - reflexivity.
  - simpl. lia.
  - simpl. unfold TAP_EXPIRE_DEFAULT. lia.
  - simpl. lia.
  - exists s'. split; [exact E|]. rewrite L. reflexivity.
Defined.

(** X19.  While [micros()] is still below the expiry window, as in the
    first 1.715 seconds after reset, the subtraction of the expiry test
    wraps: the first idle poll after a tap clears the record at once,
    however recent the tap. *)
Theorem tap_is_dropped_before_micros_reaches_window (p : Poll) (s : State) :
  idlePoll p s ->
  0 < lastTapTime s <= microsNow p ->
  microsNow p < tapExpireTime s <= 2 ^ 32 ->
  exists s',
    doTapInput p s = Some s'
    /\ lastTapTime s' = 0
    /\ tempo s' = tempo s.
Proof.
  intros Hi Hl Hn.
  rewrite (doTapInput_idle p s Hi).
  rewrite (tapExpired_before_window p s Hl Hn).
  eexists. split; [reflexivity|]. open_state s. auto.
Qed.

Lemma tap_is_dropped_before_micros_reaches_window_witness :
  exists s1 s2,
    tapTempo 1000000 (initial LOW HIGH) = Some s1
    /\ doTapInput (mkPoll LOW 1003 1003 1003000) s1 = Some s2
    /\ lastTapTime s2 = 0.
Proof.
  destruct (tapTempo 1000000 (initial LOW HIGH)) as [s1|] eqn:E;
    [|vm_compute in E; discriminate E].
  vm_compute in E. injection E as <-.
  destruct (tap_is_dropped_before_micros_reaches_window
              (mkPoll LOW 1003 1003 1003000)
              (mkState false 0 0 1000000 1715000 0 1 120 0 20833 0 0 0 []))
    as (s2 & E2 & L & _).
  - reflexivity.
  - simpl. lia.
  - simpl. lia.
  - eexists _, s2. split; [reflexivity|]. split; assumption.
Defined.

(** ** Presses and messages *)

Lemma count_isTransport_press p s :
  count isTransport (midiOut (doStartStopInput p s))
  = (count isTransport (midiOut s)
     + (if startPress p s then 1 else 0))%nat.
Proof.
  destruct (doStartStopInput_cases p s)
    as [(Hp & _ & E)|[(Hp & _ & E)|(Hp & E)]];
    cbv zeta in E; rewrite E, Hp; open_state s; fields;
    rewrite ?count_app; cbn; lia.
Qed.

(** X20.  Over any run of polls of the transport button, at any times, the
    Start and Stop messages sent are as many as the polls that took a
    press: one message a press, none without. *)
Theorem one_transport_message_per_press (ps : list Poll) (s : State) :
  count isTransport (midiOut (snd (pollStart ps s)))
  = (count isTransport (midiOut s) + presses (fst (pollStart ps s)))%nat.
Proof.
  revert s. induction ps as [|p ps IH]; intros s.
  - cbn. lia.
  - cbn [pollStart]. specialize (IH (doStartStopInput p s)).
    destruct (pollStart ps (doStartStopInput p s)) as [bs s'].
    cbn [fst snd] in IH |- *. rewrite IH, count_isTransport_press.
    unfold presses. cbn [filter].
    destruct (startPress p s); cbn [id length]; lia.
Qed.

(** ** The quarter note *)

Lemma ticks_add n m s : ticks (n + m) s = ticks m (ticks n s).
Proof.
  revert s. induction n as [|n IH]; intros s; [reflexivity|].
  cbn [Nat.add ticks]. apply IH.
Qed.

(** X21.  A quarter note is 24 invocations of the handler.  From an
    invocation that finds the tick counter at 0, the counter is next at 0
    again 24 invocations later and at no invocation between, and while the
    transport runs exactly 24 Clocks are sent over that stretch. *)
Theorem quarter_note_is_24_ticks (n : nat) (s : State) :
  0 <= currentTick s < 24 ->
  currentTick (ticks n s) = 0 ->
  currentTick (ticks (n + 24) s) = 0
  /\ (forall j, (0 < j < 24)%nat -> currentTick (ticks (n + j) s) <> 0)
  /\ (started s = true ->
      midiOut (ticks (n + 24) s) = midiOut (ticks n s) ++ repeat Clock 24)
  /\ (started s = false -> midiOut (ticks (n + 24) s) = midiOut (ticks n s)).
Proof.
  intros Hr H0.
  assert (R : 0 <= currentTick (ticks n s) < 24) by lia.
  split; [|split; [|split]].
  - rewrite ticks_add, ticks_currentTick, H0 by exact R. reflexivity.
  - intros j Hj. rewrite ticks_add, ticks_currentTick, H0 by exact R.
    rewrite Z.add_0_l, Z.mod_small; lia.
  - intros Hs. rewrite ticks_add. apply ticks_midiOut_running.
    now rewrite ticks_started.
  - intros Hs. rewrite ticks_add. apply ticks_midiOut_stopped.
    now rewrite ticks_started.
Qed.

Lemma quarter_note_is_24_ticks_witness :
  currentTick (ticks 29 (set_currentTick 19 (initial HIGH HIGH))) = 0.
Proof.
  destruct (quarter_note_is_24_ticks 5
              (set_currentTick 19 (initial HIGH HIGH))) as (H & _).
  - simpl. lia.
  - reflexivity.
  - exact H.
Defined.

(** ** The handler beside the rest of the loop

    The handler and the code of [loop] outside the transport poll write
    disjoint globals and read none of each other's: an invocation inside
    the tap poll or the encoder block is one before it. *)

Lemma clockTick_view a b :
  transportView a = transportView b ->
  transportView (clockTick a) = transportView (clockTick b).
Proof.
  rewrite !clockTick_eq. destruct a, b. unfold transportView. cbn.
  intros [= -> -> -> -> -> -> ->]. reflexivity.
Qed.

Lemma clockTick_doTapInput p s :
  option_map clockTick (doTapInput p s) = doTapInput p (clockTick s).
Proof.
  destruct (clockTick_writes s) as (V & C & _).
  pose proof (doTapInput_view p (clockTick s) s V) as D.
  destruct (doTapInput p s) as [s1|] eqn:E1;
    destruct (doTapInput p (clockTick s)) as [b|] eqn:E2;
    try contradiction; [|reflexivity].
  cbn [option_map]. f_equal.
  destruct (doTapInput_writes _ _ _ E1) as (T1 & C1 & _).
  destruct (doTapInput_writes _ _ _ E2) as (T2 & C2 & _).
  destruct (clockTick_writes s1) as (V1 & D1 & _).
  apply views_ext.
  - rewrite T2. now apply clockTick_view.
  - congruence.
  - congruence.
Qed.

Lemma clockTick_changeTempo offset s :
  option_map clockTick (changeTempo offset s)
  = changeTempo offset (clockTick s).
Proof.
  rewrite !changeTempo_eq. cbn [option_map]. rewrite !clockTick_eq.
  open_state s. fields. reflexivity.
Qed.

Lemma clockTick_loopEncoder moved s pos :
  option_map (fun k => mkSketch (clockTick (globals k)) (position k))
    (loopEncoder moved (mkSketch s pos))
  = loopEncoder moved (mkSketch (clockTick s) pos).
Proof.
  unfold loopEncoder. cbn [globals position].
  assert (E : tempoEncoder_read moved (clockTick s)
              = clockTick (tempoEncoder_read moved s))
    by (unfold tempoEncoder_read; rewrite !clockTick_eq; open_state s;
        reflexivity).
  assert (C : encoderCount (clockTick (tempoEncoder_read moved s))
              = encoderCount (tempoEncoder_read moved s))
    by (destruct (clockTick_writes (tempoEncoder_read moved s)) as (_ & C & _);
        exact C).
  rewrite E, C, <- !clockTick_changeTempo.
  destruct (negb _); [|reflexivity].
  cbv zeta.
  destruct (_ >? 3); [|destruct (_ <? -3)]; try reflexivity;
    destruct (changeTempo _ _); reflexivity.
Qed.
